(** * binview: a terminal hex viewer

    A shallow embedding of [main.go]: the line renderer [draw], the
    per-row diff cache used by [view], the loader that cuts the input into
    16-byte records and the interactive loop of [main1] with its key
    dispatcher, column clamp and scroll rule.

    Conventions.
    - Go's [int] is a 64-bit two's complement integer; it is a [Z] here and
      every arithmetic operation of the program goes through [GoInt.wrap].
      (The Makefile also builds for 386, where the width is 32; nothing below
      depends on the width beyond [GoInt.bits].)
    - A [[]byte] is a [list byte]; a Go [string] and everything written to an
      [io.Writer] is a [string] (a sequence of 8-bit characters).
    - Loop indices that range over a slice are [nat]; they are converted with
      [Z.of_nat] where the program compares them with an [int] variable.
    - The terminal ([tty.Size], [getKey]), the input reader and
      [runewidth.Truncate] are outside the program; they appear as scripted
      answers and as a section variable. *)

From Stdlib Require Import ZArith Lia List String Ascii Strings.Byte DecimalString.
From stdpp Require Import base gmap strings list.
Import ListNotations.

Local Open Scope string_scope.
Local Open Scope Z_scope.

(** ** Machine integers *)

Module GoInt.

Definition bits : Z := 64.
Definition min_int : Z := - 2 ^ (bits - 1).
Definition max_int : Z := 2 ^ (bits - 1) - 1.

(** Two's complement wrap-around of a mathematical integer. *)
Definition wrap (z : Z) : Z := (z - min_int) mod 2 ^ bits + min_int.

Definition add (a b : Z) : Z := wrap (a + b).
Definition sub (a b : Z) : Z := wrap (a - b).
Definition mul (a b : Z) : Z := wrap (a * b).

(** [fits z]: [z] is a value of type [int]. *)
Definition fits (z : Z) : Prop := min_int <= z <= max_int.

End GoInt.

(** ** Formatting verbs of [fmt] *)

Fixpoint upperHex (u : Hexadecimal.uint) : string :=
  match u with
  | Hexadecimal.Nil => ""
  | Hexadecimal.D0 u => String "0" (upperHex u)
  | Hexadecimal.D1 u => String "1" (upperHex u)
  | Hexadecimal.D2 u => String "2" (upperHex u)
  | Hexadecimal.D3 u => String "3" (upperHex u)
  | Hexadecimal.D4 u => String "4" (upperHex u)
  | Hexadecimal.D5 u => String "5" (upperHex u)
  | Hexadecimal.D6 u => String "6" (upperHex u)
  | Hexadecimal.D7 u => String "7" (upperHex u)
  | Hexadecimal.D8 u => String "8" (upperHex u)
  | Hexadecimal.D9 u => String "9" (upperHex u)
  | Hexadecimal.Da u => String "A" (upperHex u)
  | Hexadecimal.Db u => String "B" (upperHex u)
  | Hexadecimal.Dc u => String "C" (upperHex u)
  | Hexadecimal.Dd u => String "D" (upperHex u)
  | Hexadecimal.De u => String "E" (upperHex u)
  | Hexadecimal.Df u => String "F" (upperHex u)
  end.

Fixpoint zeros (n : nat) : string :=
  match n with
  | O => ""
  | S n' => String "0" (zeros n')
  end.

Definition padZero (wid : nat) (digits : string) : string :=
  zeros (wid - String.length digits) +:+ digits.

(** [%0<wid>X]: upper-case hexadecimal, zero-padded to [wid] columns; the
    sign of a negative value takes one of the columns. *)
Definition fmt_X (wid : nat) (v : Z) : string :=
  if v <? 0
  then String "-" (padZero (wid - 1) (upperHex (N.to_hex_uint (Z.to_N (- v)))))
  else padZero wid (upperHex (N.to_hex_uint (Z.to_N v))).

(** [%d]. *)
Definition fmt_d (v : Z) : string := NilZero.string_of_int (Z.to_int v).

(** ** Escape sequences (the constants of main.go) *)

Definition ESC : ascii := "027"%char.
Definition CR : ascii := "013"%char.
Definition LF : ascii := "010"%char.

Definition CURSOR_COLOR : string := String ESC "[0;40;37;1;7m".
Definition CELL1_COLOR : string := String ESC "[0;40;37m".
Definition CELL2_COLOR : string := String ESC "[0;40;37;1m".
Definition ERASE_LINE : string := String ESC "[0m" +:+ String ESC "[0K".
Definition ERASE_SCRN_AFTER : string := String ESC "[0m" +:+ String ESC "[0J".

Definition _ANSI_CURSOR_OFF : string := String ESC "[?25l".
Definition _ANSI_CURSOR_ON : string := String ESC "[?25h".
Definition _ANSI_YELLOW : string := String ESC "[0;33;1m".
Definition _ANSI_RESET : string := String ESC "[0m".

(** ** The renderer: [draw] *)

Definition byteZ (b : byte) : Z := Z.of_N (Byte.to_N b).

(** [slice[k]] for an index the program has already bounded by [len(slice)]
    (see [contLoop_reads_in_range]). *)
Definition byteAt (slice : list byte) (k : nat) : byte := default x00 (slice !! k).

(** Lines 38-50: the hexadecimal cells, [i] being the index of the head of
    [slice] in the record. *)
Fixpoint hexLoop (cursorPos : Z) (i : nat) (slice : list byte) : string :=
  match slice with
  | [] => ""
  | s :: rest =>
      (if (0 <? i)%nat then String ESC "[0m " else "")
      +:+ (if Z.of_nat i =? cursorPos then CURSOR_COLOR
           else if Z.land (Z.shiftr (Z.of_nat i) 2) 1 =? 0 then CELL1_COLOR
           else CELL2_COLOR)
      +:+ fmt_X 2 (byteZ s)
      +:+ hexLoop cursorPos (S i) rest
  end.

(** Lines 52-54: one blank field per missing column. *)
Fixpoint padLoop (n : nat) : string :=
  match n with
  | O => ""
  | S n' => "   " +:+ padLoop n'
  end.

(** Lines 37-54. *)
Definition drawAddress (address : Z) : string := fmt_X 8 address +:+ " ".

Definition drawHex (cursorPos : Z) (slice : list byte) : string :=
  hexLoop cursorPos 0 slice +:+ String ESC "[0m " +:+ padLoop (16 - length slice).

(** Lines 58-67: the length announced by a lead byte. *)
Definition seqLength (s : byte) : nat :=
  let v := byteZ s in
  if (0x20 <=? v) && (v <=? 0x7E) then 1%nat
  else if (0xC2 <=? v) && (v <=? 0xDF) then 2%nat
  else if (0xE0 <=? v) && (v <=? 0xEF) then 3%nat
  else if (0xF0 <=? v) && (v <=? 0xF4) then 4%nat
  else 0%nat.

(** Lines 72-77: [j] runs from 1 while [j < len]; [steps] is the number of
    iterations left, [len - j]. The result is the value of [length] after the
    loop. *)
Fixpoint contLoop (slice : list byte) (i j steps len : nat) : nat :=
  match steps with
  | O => len
  | S steps' =>
      let c := byteZ (byteAt slice (i + j)) in
      if (c <? 0x80) || (0xBF <? c) then 0%nat
      else contLoop slice i (S j) steps' len
  end.

(** Lines 57-78: the value of [length] at line 79 for the byte [s] at
    index [i]. *)
Definition glyphLength (slice : list byte) (i : nat) (s : byte) : nat :=
  let len := seqLength s in
  if (length slice <=? i + len)%nat then 0%nat
  else contLoop slice i 1 (len - 1) len.

(** Lines 56-100, the control of the loop: the pairs [(i, length)] seen at
    line 79, in order. After a glyph of length 0 the index moves by one,
    after a glyph of length [n > 0] by [n] ([i += length - 1] and the [i++]
    of the loop). Every iteration moves [i] forward, so [length slice - i]
    iterations always suffice ([glyphsFrom_fuel]). *)
Fixpoint glyphsFrom (fuel : nat) (slice : list byte) (i : nat) : list (nat * nat) :=
  match fuel with
  | O => []
  | S fuel' =>
      match slice !! i with
      | None => []
      | Some s =>
          let len := glyphLength slice i s in
          (i, len) :: glyphsFrom fuel' slice (if (len =? 0)%nat then S i else (i + len)%nat)
      end
  end.

Definition glyphs (slice : list byte) : list (nat * nat) :=
  glyphsFrom (length slice) slice 0.

(** Lines 79-99: what one iteration writes. *)
Definition emitGlyph (cursorPos : Z) (slice : list byte) (g : nat * nat) : string :=
  let '(i, len) := g in
  if (len =? 0)%nat then
    (if Z.of_nat i =? cursorPos then CURSOR_COLOR else CELL1_COLOR) +:+ "."
  else
    (if (Z.of_nat i <=? cursorPos) && (cursorPos <? Z.of_nat (i + len))
     then CURSOR_COLOR else CELL1_COLOR)
    +:+ string_of_list_byte (take len (drop i slice))
    +:+ (if (len =? 3)%nat then " " else if (len =? 4)%nat then "  " else "").

(** Successive writes to one writer. *)
Fixpoint joinAll (l : list string) : string :=
  match l with
  | [] => ""
  | x :: rest => x +:+ joinAll rest
  end.

Definition drawChars (cursorPos : Z) (slice : list byte) : string :=
  joinAll (map (emitGlyph cursorPos slice) (glyphs slice)).

Definition draw (address cursorPos : Z) (slice : list byte) : string :=
  drawAddress address +:+ drawHex cursorPos slice
  +:+ drawChars cursorPos slice +:+ ERASE_LINE.

(** [LineView]; its writer [Out] is the string that [Draw] returns. *)
Record LineView := { Slice : list byte; CursorPos : Z }.

Definition LineView_Draw (v : LineView) (address : Z) : string :=
  draw address (CursorPos v) (Slice v).

(** ** What the terminal shows

    [visibleText] removes the control sequences [ESC [ ... final] from a
    string; what is left is what occupies columns on the screen. It is the
    yardstick for statements about alignment, not part of the program. *)

Inductive AnsiState := Text | AfterEsc | InCsi.

Fixpoint visibleFrom (q : AnsiState) (s : string) : string :=
  match s with
  | EmptyString => ""
  | String c rest =>
      match q with
      | Text =>
          if Ascii.eqb c ESC then visibleFrom AfterEsc rest
          else String c (visibleFrom Text rest)
      | AfterEsc =>
          if Ascii.eqb c "["%char then visibleFrom InCsi rest
          else visibleFrom Text rest
      | InCsi =>
          if (64 <=? nat_of_ascii c)%nat && (nat_of_ascii c <=? 126)%nat
          then visibleFrom Text rest
          else visibleFrom InCsi rest
      end
  end.

Definition visibleText (s : string) : string := visibleFrom Text s.
Definition visibleWidth (s : string) : nat := String.length (visibleText s).

(** ** Record sources: [BinIn] and [MemoryBin] *)

(** [io.EOF] and every other error value. *)
Inductive error := EOF | Failure (msg : string).

(** [l[i]] for an [int] index: [None] is Go's index-out-of-range panic. *)
Definition index {A : Type} (l : list A) (i : Z) : option A :=
  if i <? 0 then None else l !! Z.to_nat i.

Definition len {A : Type} (l : list A) : Z := Z.of_nat (length l).

Inductive ReadResult :=
| ReadOk (bin : list byte)
| ReadFail (err : error)
| ReadPanic.

Class BinIn (T : Type) := {
  Read : T -> ReadResult * T;
  HomeAddress : T -> Z
}.

Record MemoryBin := { Data : list (list byte); StartY : Z }.

Definition MemoryBin_Read (this : MemoryBin) : ReadResult * MemoryBin :=
  if len (Data this) <=? StartY this then (ReadFail EOF, this)
  else
    match index (Data this) (StartY this) with
    | None => (ReadPanic, this)
    | Some bin =>
        (ReadOk bin, {| Data := Data this; StartY := GoInt.add (StartY this) 1 |})
    end.

#[export] Instance MemoryBin_BinIn : BinIn MemoryBin := {
  Read := MemoryBin_Read;
  HomeAddress := StartY
}.

(** ** The diff cache and [view] *)

(** Lines 145-148. A missing key of a Go map reads as the empty string. *)
Definition shouldWrite (cache : gmap Z string) (count : Z) (line : string) : bool :=
  negb (String.eqb (default "" (cache !! count)) line).

Definition cacheWrite (cache : gmap Z string) (count : Z) (line : string) (out : string)
  : string * gmap Z string :=
  if shouldWrite cache count line
  then (out +:+ line, <[count := line]> cache)
  else (out, cache).

Inductive ViewResult :=
| ViewReturn (lfCount : Z) (err : option error) (out : string) (cache : gmap Z string)
| ViewPanic.

Definition CRLF : string := String CR (String LF "").

(** The loop of [view]. [count] goes from 0 up to [h], one slot per
    iteration: [slots] is the number of slots left, so [slots = 0] is the
    test [count >= h] ([h] is an [int], so [count] reaches it before it
    could wrap). *)
Fixpoint viewLoop {T : Type} `{BinIn T} (slots : nat) (in_ : T)
    (homeAddress csrpos csrlin count lfCount : Z)
    (cache : gmap Z string) (out : string) : ViewResult :=
  match slots with
  | O => ViewReturn lfCount None out cache
  | S slots' =>
      match Read in_ with
      | (ReadPanic, _) => ViewPanic
      | (ReadFail EOF, _) => ViewReturn lfCount None out cache
      | (ReadFail err, _) => ViewReturn lfCount (Some err) out cache
      | (ReadOk record, in') =>
          let lfCount' := if 0 <? count then GoInt.add lfCount 1 else lfCount in
          let out1 := if 0 <? count then out +:+ CRLF else out in
          let v := {| Slice := record;
                      CursorPos := if count =? csrlin then csrpos else -1 |} in
          let line := LineView_Draw v (GoInt.mul (GoInt.add homeAddress count) 16) in
          let '(out2, cache') := cacheWrite cache count line out1 in
          viewLoop slots' in' homeAddress csrpos csrlin
                   (GoInt.add count 1) lfCount' cache' out2
      end
  end.

Definition view {T : Type} `{BinIn T} (in_ : T) (csrpos csrlin w h : Z)
    (cache : gmap Z string) : ViewResult :=
  viewLoop (Z.to_nat h) in_ (HomeAddress in_) csrpos csrlin 0 0 cache "".

(** ** Loading the dataset (main1, lines 206-223) *)

(** One answer of [in.Read(slice1[:])]: the bytes delivered, [slice1[:n]],
    and the error. *)
Definition ReadAnswer : Type := list byte * option error.

Inductive LoadResult :=
| Loaded (slices : list (list byte))
| LoadError (err : error)
| LoadPanic.

(** A script that ends stands for a reader that answers [(0, io.EOF)] from
    then on. Slicing the 16-byte array beyond its capacity panics. *)
Fixpoint load (reads : list ReadAnswer) (slices : list (list byte)) : LoadResult :=
  match reads with
  | [] => Loaded slices
  | (chunk, err) :: rest =>
      if 16 <? len chunk then LoadPanic
      else
        let slices' := if 0 <? len chunk then (slices ++ [chunk])%list else slices in
        match err with
        | None => load rest slices'
        | Some EOF => Loaded slices'
        | Some e => LoadError e
        end
  end.

(** ** Key tokens (the constants of main.go) *)

Definition _KEY_CTRL_A : string := String "001" "".
Definition _KEY_CTRL_B : string := String "002" "".
Definition _KEY_CTRL_E : string := String "005" "".
Definition _KEY_CTRL_F : string := String "006" "".
Definition _KEY_CTRL_L : string := String "012" "".
Definition _KEY_CTRL_N : string := String "014" "".
Definition _KEY_CTRL_P : string := String "016" "".
Definition _KEY_DOWN : string := String ESC "[B".
Definition _KEY_ESC : string := String ESC "".
Definition _KEY_LEFT : string := String ESC "[D".
Definition _KEY_RIGHT : string := String ESC "[C".
Definition _KEY_UP : string := String ESC "[A".
Definition _KEY_F2 : string := String ESC "[OQ".

(** ** The interactive loop of [main1] *)

(** The answers of the terminal: [tty1.Size()] and [getKey(tty1)]. *)
Definition SizeAnswer : Type := error + Z * Z.
Definition KeyAnswer : Type := error + string.

Record Tty := { sizes : list SizeAnswer; keys : list KeyAnswer }.

(** The variables of [main1] that live across iterations, and the global [cache]. *)
Record State := {
  colIndex : Z;
  rowIndex : Z;
  startRow : Z;
  lastWidth : Z;
  lastHeight : Z;
  message : string;
  cache : gmap Z string
}.

Definition initialState : State :=
  {| colIndex := 0; rowIndex := 0; startRow := 0;
     lastWidth := 0; lastHeight := 0; message := ""; cache := ∅ |}.

(** A [case] with several values. *)
Definition oneOf (ch : string) (values : list string) : bool :=
  existsb (String.eqb ch) values.

(** What the [switch] of lines 273-304 leaves behind. *)
Inductive Dispatch :=
| Moved (colIndex rowIndex : Z) (cache : gmap Z string)
        (keys : list KeyAnswer) (out : string)
| Quit (out : string)
| DispatchPanic
| DispatchWaiting.

Definition dispatch (slices : list (list byte)) (ch : string)
    (keys : list KeyAnswer) (colIndex rowIndex : Z)
    (cache : gmap Z string) : Dispatch :=
  if String.eqb ch _KEY_CTRL_L then
    Moved colIndex rowIndex ∅ keys ""
  else if oneOf ch ["q"; _KEY_ESC] then
    let out := _ANSI_YELLOW +:+ String CR "Quit Sure ? [y/n]" +:+ ERASE_LINE in
    match keys with
    | [] => DispatchWaiting
    | inr ch' :: keys' =>
        if String.eqb ch' "y" then Quit (out +:+ String LF "")
        else Moved colIndex rowIndex cache keys' out
    | inl _ :: keys' => Moved colIndex rowIndex cache keys' out
    end
  else if oneOf ch ["j"; _KEY_DOWN; _KEY_CTRL_N] then
    Moved colIndex
          (if rowIndex <? GoInt.sub (len slices) 1 then GoInt.add rowIndex 1
           else rowIndex)
          cache keys ""
  else if oneOf ch ["k"; _KEY_UP; _KEY_CTRL_P] then
    Moved colIndex (if 0 <? rowIndex then GoInt.sub rowIndex 1 else rowIndex)
          cache keys ""
  else if oneOf ch ["h"; _KEY_LEFT; _KEY_CTRL_B] then
    Moved (if 0 <? colIndex then GoInt.sub colIndex 1 else colIndex) rowIndex
          cache keys ""
  else if oneOf ch ["l"; _KEY_RIGHT; _KEY_CTRL_F] then
    Moved (GoInt.add colIndex 1) rowIndex cache keys ""
  else if oneOf ch ["0"; "^"; _KEY_CTRL_A] then
    Moved 0 rowIndex cache keys ""
  else if oneOf ch ["$"; _KEY_CTRL_E] then
    match index slices rowIndex with
    | None => DispatchPanic
    | Some row => Moved (GoInt.sub (len row) 1) rowIndex cache keys ""
    end
  else if String.eqb ch "<" then
    Moved colIndex 0 cache keys ""
  else if String.eqb ch ">" then
    Moved colIndex (GoInt.sub (len slices) 1) cache keys ""
  else
    Moved colIndex rowIndex cache keys "".

(** Lines 305-307; [None] is the panic of [slices[rowIndex]]. *)
Definition clampColumn (slices : list (list byte)) (rowIndex colIndex : Z) : option Z :=
  match index slices rowIndex with
  | None => None
  | Some row =>
      Some (if len row <=? colIndex then GoInt.sub (len row) 1 else colIndex)
  end.

(** Lines 309-313. *)
Definition scroll (rowIndex startRow screenHeight : Z) : Z :=
  if rowIndex <? startRow then rowIndex
  else if GoInt.sub (GoInt.add startRow screenHeight) 1 <=? rowIndex
  then GoInt.add (GoInt.sub rowIndex (GoInt.sub screenHeight 1)) 1
  else startRow.

(** Lines 314-318. *)
Definition cursorUp (lf : Z) : string :=
  if 0 <? lf then String CR (String ESC "[") +:+ fmt_d lf +:+ "A"
  else String CR "".

(** One turn of the loop. *)
Inductive Step :=
| Next (st : State) (keys : list KeyAnswer) (out : string)
| Return (err : option error) (out : string)
| Panic
| Waiting.

Section MainLoop.

(** [runewidth.Truncate]. *)
Variable Truncate : string -> Z -> string -> string.

(** Lines 256-267. The two nested tests are exactly the conditions under
    which [slices[rowIndex][colIndex]] exists ([index_Some]). *)
Definition statusLine (slices : list (list byte)) (st : State) (screenWidth : Z) : string :=
  if negb (String.eqb (message st) "") then
    _ANSI_YELLOW +:+ Truncate (message st) (GoInt.sub screenWidth 1) "" +:+ _ANSI_RESET
  else
    match index slices (rowIndex st) with
    | None => ""
    | Some row =>
        match index row (colIndex st) with
        | None => ""
        | Some b =>
            String ESC "[0;33;1m("
            +:+ fmt_X 8 (GoInt.add (GoInt.mul (rowIndex st) 16) (colIndex st))
            +:+ "):" +:+ fmt_X 2 (byteZ b) +:+ String ESC "[0m"
        end
    end.

Definition frame (slices : list (list byte)) (size : SizeAnswer)
    (keys : list KeyAnswer) (st : State) : Step :=
  match size with
  | inl err => Return (Some err) ""
  | inr (screenWidth, screenHeight) =>
      let changed :=
        negb (lastWidth st =? screenWidth) || negb (lastHeight st =? screenHeight) in
      let cache0 := if changed then ∅ else cache st in
      let out0 := if changed then _ANSI_CURSOR_OFF else "" in
      let window := {| Data := slices; StartY := startRow st |} in
      match view window (colIndex st) (GoInt.sub (rowIndex st) (startRow st))
                 (GoInt.sub screenWidth 1) (GoInt.sub screenHeight 1) cache0 with
      | ViewPanic => Panic
      | ViewReturn _ (Some err) vout _ => Return (Some err) (out0 +:+ vout)
      | ViewReturn lf0 None vout cache1 =>
          let lf := GoInt.add lf0 1 in
          let out1 :=
            out0 +:+ vout +:+ CRLF +:+ statusLine slices st screenWidth
            +:+ ERASE_SCRN_AFTER in
          match keys with
          | [] => Waiting
          | inl err :: _ => Return (Some err) out1
          | inr ch :: keys1 =>
              match dispatch slices ch keys1 (colIndex st) (rowIndex st) cache1 with
              | DispatchPanic => Panic
              | DispatchWaiting => Waiting
              | Quit o => Return None (out1 +:+ o)
              | Moved col row cache2 keys2 o =>
                  match clampColumn slices row col with
                  | None => Panic
                  | Some col' =>
                      Next {| colIndex := col';
                              rowIndex := row;
                              startRow := scroll row (startRow st) screenHeight;
                              lastWidth := if changed then screenWidth else lastWidth st;
                              lastHeight := if changed then screenHeight else lastHeight st;
                              message := "";
                              cache := cache2 |}
                           keys2 (out1 +:+ o +:+ cursorUp lf)
                  end
              end
          end
      end
  end.

(** What [main1] comes to. [Blocked]: the script of answers ran out while
    the program was waiting for the terminal. *)
Inductive Result :=
| Finished (err : option error) (out : string)
| Panicked
| Blocked (st : State).

(** The [for] of line 238: one answer of [tty1.Size()] per turn. *)
Fixpoint mainLoop (slices : list (list byte)) (sizes : list SizeAnswer)
    (keys : list KeyAnswer) (st : State) (out : string) : Result :=
  match sizes with
  | [] => Blocked st
  | size :: sizes' =>
      match frame slices size keys st with
      | Next st' keys' o => mainLoop slices sizes' keys' st' (out +:+ o)
      | Return err o => Finished err (out +:+ o)
      | Panic => Panicked
      | Waiting => Blocked st
      end
  end.

(** [main1]: [argf] is the outcome of [NewArgf] and the answers of the
    reader built on it, [ttyOpen] the outcome of [tty.Open]. The deferred
    write of [_ANSI_CURSOR_ON] closes every return. *)
Definition main1 (argf : error + list ReadAnswer) (ttyOpen : error + Tty) : Result :=
  let out := _ANSI_CURSOR_OFF in
  match argf with
  | inl err => Finished (Some err) (out +:+ _ANSI_CURSOR_ON)
  | inr reads =>
      match load reads [] with
      | LoadPanic => Panicked
      | LoadError err => Finished (Some err) (out +:+ _ANSI_CURSOR_ON)
      | Loaded slices =>
          if len slices <=? 0 then Finished (Some EOF) (out +:+ _ANSI_CURSOR_ON)
          else
            match ttyOpen with
            | inl err => Finished (Some err) (out +:+ _ANSI_CURSOR_ON)
            | inr tty1 =>
                match mainLoop slices (sizes tty1) (keys tty1) initialState out with
                | Finished err o => Finished err (o +:+ _ANSI_CURSOR_ON)
                | r => r
                end
            end
      end
  end.

End MainLoop.

(** ** Vocabulary of the statements *)

(** A string without the escape character. *)
Definition plain (s : string) : Prop :=
  Forall (fun c => Ascii.eqb c ESC = false) (list_ascii_of_string s).

(** Cells of a panel, as (attribute, text) pairs, written one after another
    with [sep] in between. *)
Definition cells (sep : string) (l : list (string * string)) : string :=
  String.concat sep (map (fun c => fst c +:+ snd c) l).

(** The two digits of a byte in the hexadecimal panel. *)
Definition hex2 (s : byte) : string := fmt_X 2 (byteZ s).

(** A continuation byte of UTF-8, the negation of the test of line 73. *)
Definition isContinuation (c : byte) : bool := (0x80 <=? byteZ c) && (byteZ c <=? 0xBF).

(** What the loader and the test of line 221 guarantee, and what a Go slice
    is: at least one record, no more records than an [int] can count, each
    record of 1 to 16 bytes. *)
Definition datasetOk (slices : list (list byte)) : Prop :=
  1 <= len slices <= GoInt.max_int
  /\ Forall (fun r => 1 <= len r <= 16) slices.

(** The cursor is on a byte of the dataset. *)
Definition cursorOk (slices : list (list byte)) (st : State) : Prop :=
  match index slices (rowIndex st) with
  | Some row => 0 <= colIndex st < len row
  | None => False
  end.

(** A terminal height that is not negative and does not overflow when added
    to the number of records. *)
Definition sizeSane (slices : list (list byte)) (size : SizeAnswer) : Prop :=
  match size with
  | inl _ => False
  | inr (_, h) => 0 <= h /\ h + len slices < GoInt.max_int
  end.

(** The start row is between 0 and the number of records plus one. *)
Definition windowOk (slices : list (list byte)) (st : State) : Prop :=
  0 <= startRow st <= len slices + 1.

(** The state of [main1] with an emptied cache. *)
Definition clearCache (st : State) : State :=
  {| colIndex := colIndex st; rowIndex := rowIndex st; startRow := startRow st;
     lastWidth := lastWidth st; lastHeight := lastHeight st;
     message := message st; cache := ∅ |}.

(** ** Sample data for the closed examples *)

Definition noTruncate (s : string) (w : Z) (tail : string) : string := s.
Definition hello : list byte := list_byte_of_string "Hello World".
Definition sizeOk (w h : Z) : SizeAnswer := inr (w, h).
Definition key (s : string) : KeyAnswer := inr s.

(** States used by the closed examples. *)
Definition atLastColumn : State :=
  {| colIndex := 10; rowIndex := 0; startRow := 0;
     lastWidth := 80; lastHeight := 24; message := ""; cache := ∅ |}.

Definition resizedState : State :=
  {| colIndex := 0; rowIndex := 0; startRow := 0;
     lastWidth := 80; lastHeight := 24; message := "";
     cache := {[ 0 := draw 0 0 hello ]} |}.

(** ** Vocabulary of the further properties *)

(** The number of bytes a glyph [(i, length)] stands for: a placeholder
    stands for one byte. *)
Definition span (g : nat * nat) : nat :=
  if (snd g =? 0)%nat then 1%nat else snd g.

(** [tiles start gs stop]: the glyphs [gs] follow one another from index
    [start] to index [stop] without gap or overlap. *)
Fixpoint tiles (start : nat) (gs : list (nat * nat)) (stop : nat) : Prop :=
  match gs with
  | [] => start = stop
  | g :: rest => fst g = start /\ tiles (start + span g) rest stop
  end.

(** What a glyph shows, attributes apart. *)
Definition glyphText (slice : list byte) (g : nat * nat) : string :=
  if (snd g =? 0)%nat then "."
  else string_of_list_byte (take (snd g) (drop (fst g) slice))
       +:+ (if (snd g =? 3)%nat then " " else if (snd g =? 4)%nat then "  " else "").

(** The text of the row shown in slot [n] of a window whose first row is
    record [home]: its address is [(home + n) * 16], and it carries the
    cursor when [n] is the cursor line. *)
Definition rowLine (home csrpos csrlin n : Z) (record : list byte) : string :=
  draw ((home + n) * 16) (if n =? csrlin then csrpos else -1) record.

(** What is written for the rows [rows] shown from slot [n] on, against a
    cache [cache0]: a line break before every row but the one of slot 0, and
    the text of a row where it differs from the cache. *)
Fixpoint paint (cache0 : gmap Z string) (home csrpos csrlin n : Z)
    (rows : list (list byte)) : string :=
  match rows with
  | [] => ""
  | r :: rest =>
      (if 0 <? n then CRLF else "")
      +:+ (if shouldWrite cache0 n (rowLine home csrpos csrlin n r)
           then rowLine home csrpos csrlin n r else "")
      +:+ paint cache0 home csrpos csrlin (n + 1) rest
  end.

(** The cache once the rows [rows] have been through it, from slot [n] on. *)
Fixpoint repaint (cache0 : gmap Z string) (home csrpos csrlin n : Z)
    (rows : list (list byte)) : gmap Z string :=
  match rows with
  | [] => cache0
  | r :: rest =>
      repaint (snd (cacheWrite cache0 n (rowLine home csrpos csrlin n r) ""))
              home csrpos csrlin (n + 1) rest
  end.

(** The reads of a script that the loader performs: all of them up to and
    including the first one that reports an error. *)
Fixpoint consumed (reads : list ReadAnswer) : list ReadAnswer :=
  match reads with
  | [] => []
  | (chunk, None) :: rest => (chunk, None) :: consumed rest
  | (chunk, Some e) :: _ => [(chunk, Some e)]
  end.

(** A terminal answer that is an error, or a height that is not negative
    and does not overflow when added to [n]. *)
Definition heightSane (n : Z) (size : SizeAnswer) : Prop :=
  match size with
  | inl _ => True
  | inr (_, h) => 0 <= h /\ h + n < GoInt.max_int
  end.

(** The row and the column a key asks for, in plain integers: [rows] is the
    number of records, [rowLen] the length of the row the cursor is on. *)
Definition rowTarget (ch : string) (rows row : Z) : Z :=
  if oneOf ch ["j"; _KEY_DOWN; _KEY_CTRL_N] then Z.min (row + 1) (rows - 1)
  else if oneOf ch ["k"; _KEY_UP; _KEY_CTRL_P] then Z.max (row - 1) 0
  else if String.eqb ch "<" then 0
  else if String.eqb ch ">" then rows - 1
  else row.

Definition colTarget (ch : string) (rowLen col : Z) : Z :=
  if oneOf ch ["h"; _KEY_LEFT; _KEY_CTRL_B] then Z.max (col - 1) 0
  else if oneOf ch ["l"; _KEY_RIGHT; _KEY_CTRL_F] then col + 1
  else if oneOf ch ["0"; "^"; _KEY_CTRL_A] then 0
  else if oneOf ch ["$"; _KEY_CTRL_E] then rowLen - 1
  else col.

(** The key was not ctrl-l and the turn moved neither the cursor nor the
    window. *)
Definition unchanged (ch : string) (st st' : State) : bool :=
  negb (String.eqb ch _KEY_CTRL_L)
  && (colIndex st' =? colIndex st) && (rowIndex st' =? rowIndex st)
  && (startRow st' =? startRow st).

(** The number of occurrences of a character in a string. *)
Fixpoint countChar (c : ascii) (s : string) : nat :=
  match s with
  | EmptyString => 0%nat
  | String x rest => ((if Ascii.eqb x c then 1 else 0) + countChar c rest)%nat
  end.

(** The attribute of cell [i] of the hexadecimal panel: the cursor's on
    the cursor column, else one of two that alternate every four cells. *)
Definition cellAttribute (cursorPos : Z) (i : nat) : string :=
  if Z.of_nat i =? cursorPos then CURSOR_COLOR
  else if Nat.even (i / 4) then CELL1_COLOR else CELL2_COLOR.

(** * Properties *)

(** ** Strings *)

Lemma append_nil_l (a : string) : "" +:+ a = a.
Proof. reflexivity. Qed.

Lemma append_cons (x : ascii) (a b : string) : String x a +:+ b = String x (a +:+ b).
Proof. reflexivity. Qed.

Lemma append_assoc (a b c : string) : (a +:+ b) +:+ c = a +:+ (b +:+ c).
Proof.
  induction a as [|x a IH]; [reflexivity|].
  rewrite !append_cons. now rewrite IH.
Qed.

Lemma append_nil_r (a : string) : a +:+ "" = a.
Proof.
  induction a as [|x a IH]; [reflexivity|].
  rewrite append_cons. now rewrite IH.
Qed.

Lemma length_append (a b : string) :
  String.length (a +:+ b) = (String.length a + String.length b)%nat.
Proof.
  induction a as [|x a IH]; [reflexivity|].
  rewrite append_cons. simpl. now rewrite IH.
Qed.

(** ** [visibleText] on the pieces [draw] is made of *)

Lemma visible_plain (s t : string) :
  plain s -> visibleFrom Text (s +:+ t) = s +:+ visibleFrom Text t.
Proof.
  unfold plain. induction s as [|c s IH]; intros H; [reflexivity|].
  simpl in H. inversion H as [|? ? Hc Hs]; subst.
  rewrite !append_cons. simpl. rewrite Hc. now rewrite IH.
Qed.

Lemma visible_CURSOR t : visibleFrom Text (CURSOR_COLOR +:+ t) = visibleFrom Text t.
Proof. reflexivity. Qed.

Lemma visible_CELL1 t : visibleFrom Text (CELL1_COLOR +:+ t) = visibleFrom Text t.
Proof. reflexivity. Qed.

Lemma visible_CELL2 t : visibleFrom Text (CELL2_COLOR +:+ t) = visibleFrom Text t.
Proof. reflexivity. Qed.

Lemma visible_reset_space t :
  visibleFrom Text (String ESC "[0m " +:+ t) = String " " (visibleFrom Text t).
Proof. reflexivity. Qed.

Lemma plain_zeros n : plain (zeros n).
Proof. induction n; simpl; constructor; auto. Qed.

Lemma plain_upperHex u : plain (upperHex u).
Proof. induction u; simpl; constructor; auto. Qed.

Lemma plain_app a b : plain a -> plain b -> plain (a +:+ b).
Proof.
  unfold plain. induction a as [|c a IH]; intros Ha Hb; [exact Hb|].
  rewrite append_cons. simpl in *. inversion Ha; subst. constructor; auto.
Qed.

Lemma plain_fmt_X wid v : plain (fmt_X wid v).
Proof.
  unfold fmt_X, padZero. destruct (v <? 0).
  - constructor; [reflexivity|]. apply plain_app; [apply plain_zeros | apply plain_upperHex].
  - apply plain_app; [apply plain_zeros | apply plain_upperHex].
Qed.

(** A byte prints as exactly two digits. *)
Lemma fmt_X_byte (b : byte) : String.length (fmt_X 2 (byteZ b)) = 2%nat.
Proof. destruct b; reflexivity. Qed.

Lemma length_hex2 (b : byte) : String.length (hex2 b) = 2%nat.
Proof. apply fmt_X_byte. Qed.

Lemma plain_padLoop n : plain (padLoop n).
Proof.
  induction n as [|n IH]; [constructor|].
  simpl. apply plain_app; [|exact IH]. repeat constructor.
Qed.

Lemma visible_of_plain (s : string) : plain s -> visibleText s = s.
Proof.
  intros H. unfold visibleText. rewrite <- (append_nil_r s) at 1.
  rewrite visible_plain by exact H. apply append_nil_r.
Qed.

Lemma length_padLoop n : String.length (padLoop n) = (3 * n)%nat.
Proof.
  induction n as [|n IH]; [reflexivity|].
  simpl padLoop. rewrite length_append, IH. simpl. lia.
Qed.

Lemma length_groups (slice : list byte) :
  String.length (joinAll (map (fun s => hex2 s +:+ " ") slice)) = (3 * length slice)%nat.
Proof.
  induction slice as [|s rest IH]; [reflexivity|].
  simpl joinAll. rewrite !length_append, length_hex2, IH. simpl. lia.
Qed.

(** The cells after the first one: each is announced by a reset and a blank. *)
Lemma visible_hexLoop_tail (cursorPos : Z) (slice : list byte) :
  forall (i : nat) (t : string), (0 < i)%nat ->
  visibleFrom Text (hexLoop cursorPos i slice +:+ String ESC "[0m " +:+ t)
  = " " +:+ joinAll (map (fun s => hex2 s +:+ " ") slice) +:+ visibleFrom Text t.
Proof.
  induction slice as [|s rest IH]; intros i t Hi.
  - reflexivity.
  - simpl hexLoop. destruct (Nat.ltb_spec 0 i) as [_|]; [|lia].
    rewrite !append_assoc, visible_reset_space.
    assert (Hc : forall u,
      visibleFrom Text
        ((if Z.of_nat i =? cursorPos then CURSOR_COLOR
          else if Z.land (Z.shiftr (Z.of_nat i) 2) 1 =? 0 then CELL1_COLOR
               else CELL2_COLOR) +:+ u) = visibleFrom Text u).
    { intros u. destruct (Z.of_nat i =? cursorPos); [reflexivity|].
      destruct (Z.land _ _ =? 0); reflexivity. }
    rewrite Hc, visible_plain by apply plain_fmt_X.
    rewrite IH by lia. simpl map. simpl joinAll. fold (hex2 s).
    rewrite !append_assoc. reflexivity.
Qed.

Lemma visible_drawHex (cursorPos : Z) (slice : list byte) :
  visibleText (drawHex cursorPos slice)
  = match slice with
    | [] => " "
    | _ => joinAll (map (fun s => hex2 s +:+ " ") slice)
    end +:+ padLoop (16 - length slice).
Proof.
  unfold visibleText, drawHex. destruct slice as [|s rest].
  - change (hexLoop cursorPos 0 []) with "". rewrite append_nil_l, visible_reset_space.
    fold (visibleText (padLoop (16 - length (@nil byte)))).
    now rewrite visible_of_plain by apply plain_padLoop.
  - simpl hexLoop. rewrite append_nil_l, !append_assoc.
    assert (Hc : forall u,
      visibleFrom Text
        ((if Z.of_nat 0 =? cursorPos then CURSOR_COLOR
          else if Z.land (Z.shiftr (Z.of_nat 0) 2) 1 =? 0 then CELL1_COLOR
               else CELL2_COLOR) +:+ u) = visibleFrom Text u).
    { intros u. destruct (Z.of_nat 0 =? cursorPos); [reflexivity|].
      destruct (Z.land _ _ =? 0); reflexivity. }
    rewrite Hc, visible_plain by apply plain_fmt_X.
    rewrite visible_hexLoop_tail by lia.
    fold (visibleText (padLoop (16 - length (s :: rest)))).
    rewrite visible_of_plain by apply plain_padLoop.
    simpl map. simpl joinAll. fold (hex2 s). rewrite !append_assoc. reflexivity.
Qed.

Lemma visible_address_then (address : Z) (t : string) :
  visibleText (drawAddress address +:+ t) = drawAddress address +:+ visibleText t.
Proof.
  unfold visibleText. apply visible_plain.
  unfold drawAddress. apply plain_app; [apply plain_fmt_X | repeat constructor].
Qed.

(** ** The scan of the character panel *)

Lemma contLoop_continuations (slice : list byte) (i : nat) :
  forall steps j len,
    contLoop slice i j steps len <> 0%nat ->
    forall k, (j <= k < j + steps)%nat -> isContinuation (byteAt slice (i + k)) = true.
Proof.
  induction steps as [|steps IH]; intros j len H k Hk; [lia|].
  simpl in H. unfold isContinuation.
  destruct (Z.ltb_spec (byteZ (byteAt slice (i + j))) 0x80) as [Hlo|Hlo];
    [now contradiction H|].
  destruct (Z.ltb_spec 0xBF (byteZ (byteAt slice (i + j)))) as [Hhi|Hhi];
    [now contradiction H|].
  simpl in H. destruct (decide (k = j)) as [->|Hne].
  - apply andb_true_intro; split; apply Z.leb_le; lia.
  - apply (IH (S j) len H). lia.
Qed.

Lemma contLoop_result (slice : list byte) (i : nat) :
  forall steps j len,
    contLoop slice i j steps len = len \/ contLoop slice i j steps len = 0%nat.
Proof.
  induction steps as [|steps IH]; intros j len; simpl; [now left|].
  destruct (_ || _); [now right | apply IH].
Qed.

(** A glyph of positive length is the announced sequence, lies strictly
    inside the record and is followed by continuation bytes only. *)
Lemma glyphLength_positive (slice : list byte) (i : nat) (s : byte) :
  glyphLength slice i s <> 0%nat ->
  glyphLength slice i s = seqLength s
  /\ (i + seqLength s < length slice)%nat
  /\ forall k, (1 <= k < seqLength s)%nat -> isContinuation (byteAt slice (i + k)) = true.
Proof.
  unfold glyphLength. destruct (Nat.leb_spec (length slice) (i + seqLength s)) as [|Hlt];
    [congruence|].
  intros H. split; [|split; [exact Hlt|]].
  - destruct (contLoop_result slice i (seqLength s - 1) 1 (seqLength s)); congruence.
  - intros k Hk. apply (contLoop_continuations slice i _ _ _ H). lia.
Qed.

(** The reads of lines 72-77 stay inside the record. *)
Lemma contLoop_reads_in_range (slice : list byte) (i k : nat) (s : byte) :
  (i + seqLength s < length slice)%nat -> (1 <= k < seqLength s)%nat ->
  slice !! (i + k)%nat = Some (byteAt slice (i + k)).
Proof.
  intros Hlen Hk. unfold byteAt.
  destruct (lookup_lt_is_Some_2 slice (i + k)) as [c Hc]; [lia|]. now rewrite Hc.
Qed.

(** The loop never stops for want of fuel: any two bounds above the number
    of bytes left give the same glyphs. *)
Lemma glyphsFrom_fuel (slice : list byte) :
  forall f1 f2 i,
    (length slice - i <= f1)%nat -> (length slice - i <= f2)%nat ->
    glyphsFrom f1 slice i = glyphsFrom f2 slice i.
Proof.
  assert (Hend : forall f i, (length slice <= i)%nat -> glyphsFrom f slice i = []).
  { intros [|f] i Hi; [reflexivity|]. simpl.
    now rewrite (lookup_ge_None_2 slice i Hi). }
  induction f1 as [|f1 IH]; intros f2 i H1 H2.
  - rewrite !Hend by lia. reflexivity.
  - destruct f2 as [|f2]; [rewrite !Hend by lia; reflexivity|].
    simpl. destruct (slice !! i) as [s|] eqn:Hs; [|reflexivity].
    apply lookup_lt_Some in Hs. f_equal.
    destruct (glyphLength slice i s =? 0)%nat eqn:Hz.
    + apply IH; lia.
    + apply Nat.eqb_neq in Hz. apply IH; lia.
Qed.

(** Every byte that is not a continuation byte is the start of a glyph. *)
Lemma glyphsFrom_reach (slice : list byte) (i : nat) (s : byte) :
  slice !! i = Some s -> isContinuation s = false ->
  forall fuel i0, (i0 <= i)%nat -> (length slice - i0 <= fuel)%nat ->
  In (i, glyphLength slice i s) (glyphsFrom fuel slice i0).
Proof.
  intros Hs Hnc. pose proof (lookup_lt_Some _ _ _ Hs) as Hlt.
  induction fuel as [|fuel IH]; intros i0 Hle Hfuel; [lia|].
  simpl. destruct (slice !! i0) as [s0|] eqn:Hs0;
    [|apply lookup_ge_None_1 in Hs0; lia].
  destruct (decide (i0 = i)) as [->|Hne].
  - left. congruence.
  - right. destruct (glyphLength slice i0 s0 =? 0)%nat eqn:Hz.
    + apply IH; lia.
    + apply Nat.eqb_neq in Hz.
      destruct (glyphLength_positive slice i0 s0 Hz) as (Heq & Hin & Hcont).
      assert (i0 + glyphLength slice i0 s0 <= i)%nat.
      { destruct (Nat.le_gt_cases (i0 + glyphLength slice i0 s0) i) as [|Hgt]; [assumption|].
        exfalso. specialize (Hcont (i - i0)%nat).
        replace (i0 + (i - i0))%nat with i in Hcont by lia.
        unfold byteAt in Hcont. rewrite Hs in Hcont. simpl in Hcont.
        rewrite Hcont in Hnc; [discriminate | lia]. }
      apply IH; lia.
Qed.

Lemma glyphs_reach (slice : list byte) (i : nat) (s : byte) :
  slice !! i = Some s -> isContinuation s = false ->
  In (i, glyphLength slice i s) (glyphs slice).
Proof.
  intros Hs Hnc. unfold glyphs. apply (glyphsFrom_reach slice i s Hs Hnc); lia.
Qed.

Lemma take2_drop (slice : list byte) (i : nat) (a b : byte) :
  slice !! i = Some a -> slice !! S i = Some b -> take 2 (drop i slice) = [a; b].
Proof.
  intros Ha Hb. rewrite (drop_S _ _ _ Ha), (drop_S _ _ _ Hb). reflexivity.
Qed.

Lemma seqLength_two (s : byte) : 0xC2 <= byteZ s <= 0xDF -> seqLength s = 2%nat.
Proof.
  intros H. unfold seqLength.
  destruct (Z.leb_spec 0x20 (byteZ s)); [|lia].
  destruct (Z.leb_spec (byteZ s) 0x7E); [lia|].
  destruct (Z.leb_spec 0xC2 (byteZ s)); [|lia].
  destruct (Z.leb_spec (byteZ s) 0xDF); [|lia].
  reflexivity.
Qed.

Lemma lead_not_continuation (s : byte) : 0xC2 <= byteZ s -> isContinuation s = false.
Proof.
  intros H. unfold isContinuation.
  destruct (Z.leb_spec (byteZ s) 0xBF); [lia|]. apply andb_false_r.
Qed.

(** ** The rendered line *)

(** C1, as stated, fails: the last byte of the record is not shown
    verbatim. For "Hello World" the character panel reads [Hello Worl.],
    and nothing follows it but the erase-line marker. *)
Lemma C1_counterexample :
  visibleText (drawChars 0 hello) = "Hello Worl."
  /\ ~ (exists padding : string,
          visibleText (drawChars 0 hello) = "Hello World" +:+ padding).
Proof.
  split; [reflexivity|].
  intros [padding H]. vm_compute in H. discriminate H.
Qed.

(** C1. The code at the failing input. The record "Hello World" drawn at
    address 0 with the cursor on column 0: the address field is [00000000];
    the hexadecimal panel holds the eleven byte values, [48] under the
    cursor attribute, followed by five blank fields; the character panel
    shows the first ten bytes verbatim, [H] under the cursor attribute, and
    then a dot in place of the last byte: [d] is printable and announces a
    sequence of length 1 (line 60), but the test of line 69,
    [i+length >= len(slice)], is true at [10 + 1 >= 11] and rejects it. *)
Theorem C1_hello_world_line :
  drawAddress 0 = "00000000 "
  /\ drawHex 0 hello
     = cells (String ESC "[0m ")
         [(CURSOR_COLOR, "48"); (CELL1_COLOR, "65"); (CELL1_COLOR, "6C");
          (CELL1_COLOR, "6C"); (CELL2_COLOR, "6F"); (CELL2_COLOR, "20");
          (CELL2_COLOR, "57"); (CELL2_COLOR, "6F"); (CELL1_COLOR, "72");
          (CELL1_COLOR, "6C"); (CELL1_COLOR, "64")]
       +:+ String ESC "[0m " +:+ padLoop 5
  /\ drawChars 0 hello
     = cells ""
         [(CURSOR_COLOR, "H"); (CELL1_COLOR, "e"); (CELL1_COLOR, "l");
          (CELL1_COLOR, "l"); (CELL1_COLOR, "o"); (CELL1_COLOR, " ");
          (CELL1_COLOR, "W"); (CELL1_COLOR, "o"); (CELL1_COLOR, "r");
          (CELL1_COLOR, "l"); (CELL1_COLOR, ".")]
  /\ visibleText (drawChars 0 hello) = "Hello Worl."
  /\ (hello !! 10%nat = Some "d"%byte
      /\ seqLength "d"%byte = 1%nat
      /\ (length hello <=? 10 + seqLength "d"%byte)%nat = true
      /\ glyphLength hello 10 "d"%byte = 0%nat)
  /\ draw 0 0 hello
     = drawAddress 0 +:+ drawHex 0 hello +:+ drawChars 0 hello +:+ ERASE_LINE
  /\ CURSOR_COLOR <> CELL1_COLOR /\ CURSOR_COLOR <> CELL2_COLOR.
Proof.
  split; [reflexivity|]. split; [reflexivity|].
  split; [vm_compute; reflexivity|]. split; [reflexivity|].
  split; [repeat split|].
  split; [reflexivity|]. split; discriminate.
Qed.

(** C2, as stated, fails twice. A valid two-byte sequence that ends exactly
    at the end of the record does not run past it, yet it is shown as two
    placeholders; and a lead byte followed by a printable byte gives a
    placeholder and then that byte itself, not two placeholders. *)
Lemma C2_counterexample :
  (glyphs [xc3; xa9] = [(0, 0); (1, 0)]%nat
   /\ visibleText (drawChars (-1) [xc3; xa9]) = "..")
  /\ (glyphs [xc3; x41; x42] = [(0, 0); (1, 1); (2, 0)]%nat
      /\ visibleText (drawChars (-1) [xc3; x41; x42]) = ".A.").
Proof. repeat split. Qed.

(** C2 (amended). For every record and every index [i] holding a lead byte
    in 0xC2..0xDF with a byte after it: when that byte is a continuation
    byte (0x80..0xBF) and the sequence ends strictly before the end of the
    record, the scan makes one glyph of the two bytes, written verbatim
    under one attribute; when that byte is not a continuation byte, the
    lead byte becomes a placeholder of one column and the scan resumes at
    the next byte, which is classified on its own. *)
Theorem C2_two_byte_sequence (cursorPos : Z) (slice : list byte) (i : nat)
    (lead c : byte) :
  slice !! i = Some lead -> slice !! S i = Some c ->
  0xC2 <= byteZ lead <= 0xDF ->
  if isContinuation c then
    if (i + 2 <? length slice)%nat then
      In (i, 2%nat) (glyphs slice)
      /\ emitGlyph cursorPos slice (i, 2%nat)
         = (if (Z.of_nat i <=? cursorPos) && (cursorPos <? Z.of_nat (i + 2))
            then CURSOR_COLOR else CELL1_COLOR)
           +:+ String (ascii_of_byte lead) (String (ascii_of_byte c) "")
    else True
  else
    In (i, 0%nat) (glyphs slice)
    /\ emitGlyph cursorPos slice (i, 0%nat)
       = (if Z.of_nat i =? cursorPos then CURSOR_COLOR else CELL1_COLOR) +:+ "."
    /\ In (S i, glyphLength slice (S i) c) (glyphs slice).
Proof.
  intros Hlead Hc Hrange.
  pose proof (glyphs_reach slice i lead Hlead
                (lead_not_continuation lead ltac:(lia))) as Hreach.
  assert (Hat : byteAt slice (i + 1) = c).
  { unfold byteAt. rewrite Nat.add_1_r, Hc. reflexivity. }
  destruct (isContinuation c) eqn:Hcont.
  - destruct (Nat.ltb_spec (i + 2) (length slice)) as [Hlt|]; [|exact I].
    assert (Hlen : glyphLength slice i lead = 2%nat).
    { unfold glyphLength. rewrite (seqLength_two lead Hrange).
      destruct (Nat.leb_spec (length slice) (i + 2)); [lia|].
      simpl. rewrite Hat. unfold isContinuation in Hcont.
      apply andb_prop in Hcont as [Hx Hy].
      apply Z.leb_le in Hx. apply Z.leb_le in Hy.
      destruct (Z.ltb_spec (byteZ c) 0x80); [lia|].
      destruct (Z.ltb_spec 0xBF (byteZ c)); [lia|]. reflexivity. }
    rewrite Hlen in Hreach. split; [exact Hreach|].
    unfold emitGlyph. rewrite (take2_drop slice i lead c Hlead Hc). reflexivity.
  - assert (Hlen : glyphLength slice i lead = 0%nat).
    { unfold glyphLength. rewrite (seqLength_two lead Hrange).
      destruct (Nat.leb_spec (length slice) (i + 2)); [reflexivity|].
      simpl. rewrite Hat. unfold isContinuation in Hcont.
      destruct (Z.ltb_spec (byteZ c) 0x80); [reflexivity|].
      destruct (Z.ltb_spec 0xBF (byteZ c)); [reflexivity|].
      apply andb_false_iff in Hcont as [Hx|Hx]; apply Z.leb_gt in Hx; lia. }
    rewrite Hlen in Hreach. split; [exact Hreach|]. split; [reflexivity|].
    apply glyphs_reach; assumption.
Qed.

Lemma C2_two_byte_sequence_witness :
  ([xc3; xa9; x41] !! 0%nat = Some xc3 /\ [xc3; xa9; x41] !! 1%nat = Some xa9
   /\ 0xC2 <= byteZ xc3 <= 0xDF)
  /\ In (0%nat, 2%nat) (glyphs [xc3; xa9; x41])
  /\ emitGlyph 0 [xc3; xa9; x41] (0%nat, 2%nat)
     = CURSOR_COLOR +:+ String (ascii_of_byte xc3) (String (ascii_of_byte xa9) "").
Proof.
  split.
  - split; [reflexivity|]. split; [reflexivity|]. unfold byteZ; simpl; lia.
  - apply (C2_two_byte_sequence 0 [xc3; xa9; x41] 0 xc3 xa9);
      [reflexivity | reflexivity | unfold byteZ; simpl; lia].
Defined.

(** C3, as stated, fails for N = 0: the empty record still gets the blank
    that closes the hexadecimal cells, so its panel is one column wider
    than that of every other record. *)
Lemma C3_counterexample :
  visibleWidth (drawAddress 0 +:+ drawHex (-1) []) = 58%nat
  /\ visibleWidth (drawAddress 0 +:+ drawHex (-1) [x41]) = 57%nat
  /\ visibleWidth (drawAddress 0 +:+ drawHex (-1) [])
     <> visibleWidth (drawAddress 0 +:+ drawHex (-1) [x41]).
Proof. repeat split. discriminate. Qed.

(** C3 (amended). For every record of N <= 16 bytes the hexadecimal panel
    shows exactly N groups of two hexadecimal digits, each followed by a
    blank, and then 16 - N blank fields of three columns. Its visible width
    is 48 columns for every N from 1 to 16, so the character panel starts
    at the same column in all these rows; for N = 0 the panel is 49 columns
    wide. *)
Theorem C3_hex_panel_layout (address cursorPos : Z) (slice : list byte) :
  (length slice <= 16)%nat ->
  visibleText (drawHex cursorPos slice)
  = match slice with
    | [] => " "
    | _ => joinAll (map (fun s => hex2 s +:+ " ") slice)
    end +:+ padLoop (16 - length slice)
  /\ Forall (fun s => String.length (hex2 s) = 2%nat) slice
  /\ visibleWidth (drawHex cursorPos slice)
     = (if (length slice =? 0)%nat then 49 else 48)%nat
  /\ visibleWidth (drawAddress address +:+ drawHex cursorPos slice)
     = (String.length (drawAddress address)
        + (if (length slice =? 0)%nat then 49 else 48))%nat.
Proof.
  intros Hlen.
  assert (Hw : visibleWidth (drawHex cursorPos slice)
               = (if (length slice =? 0)%nat then 49 else 48)%nat).
  { unfold visibleWidth. rewrite visible_drawHex, length_append, length_padLoop.
    destruct slice as [|s rest]; [reflexivity|].
    rewrite length_groups. simpl length in *. simpl Nat.eqb. cbv iota. lia. }
  split; [apply visible_drawHex|]. split; [|split; [exact Hw|]].
  - apply Forall_forall. intros s _. apply length_hex2.
  - unfold visibleWidth in *. rewrite visible_address_then, length_append, Hw.
    reflexivity.
Qed.

Lemma C3_hex_panel_layout_witness :
  (length hello <= 16)%nat
  /\ visibleText (drawHex 0 hello)
     = "48 65 6C 6C 6F 20 57 6F 72 6C 64 " +:+ padLoop 5
  /\ visibleWidth (drawHex 0 hello) = 48%nat
  /\ visibleWidth (drawAddress 0 +:+ drawHex 0 hello) = 57%nat.
Proof.
  assert (H : (length hello <= 16)%nat) by (vm_compute; lia).
  split; [exact H|].
  destruct (C3_hex_panel_layout 0 0 hello H) as (Htext & _ & Hw & Hcol).
  split; [exact Htext|]. split; [exact Hw | exact Hcol].
Defined.

(** ** Machine integers that do not overflow *)

Lemma max_int_value : GoInt.max_int = 9223372036854775807.
Proof. reflexivity. Qed.

Lemma min_int_value : GoInt.min_int = -9223372036854775808.
Proof. reflexivity. Qed.

Lemma wrap_fits (z : Z) : GoInt.fits z -> GoInt.wrap z = z.
Proof.
  unfold GoInt.fits, GoInt.wrap. rewrite max_int_value, min_int_value.
  change (2 ^ GoInt.bits) with 18446744073709551616.
  intros H. rewrite Z.mod_small by lia. lia.
Qed.

(** Replace [wrap z] by [z] wherever [lia] can bound [z]. *)
Ltac fits_by_lia :=
  unfold GoInt.fits; pose proof max_int_value; pose proof min_int_value; lia.

Ltac unwrap :=
  unfold GoInt.add, GoInt.sub, GoInt.mul in *;
  repeat match goal with
    | |- context [GoInt.wrap ?z] => rewrite (wrap_fits z) by fits_by_lia
    | H : context [GoInt.wrap ?z] |- _ => rewrite (wrap_fits z) in H by fits_by_lia
    end.

(** ** Indexing *)

Lemma len_nonneg {A : Type} (l : list A) : 0 <= len l.
Proof. unfold len. lia. Qed.

Lemma index_Some {A : Type} (l : list A) (i : Z) (x : A) :
  index l i = Some x -> 0 <= i < len l.
Proof.
  unfold index, len. destruct (Z.ltb_spec i 0) as [Hi|Hi]; [discriminate|].
  intros Hx. apply lookup_lt_Some in Hx. lia.
Qed.

Lemma index_in_range {A : Type} (l : list A) (i : Z) :
  0 <= i < len l -> exists x, index l i = Some x.
Proof.
  unfold index, len. intros Hr. destruct (Z.ltb_spec i 0) as [Hi|Hi]; [lia|].
  apply lookup_lt_is_Some_2. lia.
Qed.

Lemma index_In {A : Type} (l : list A) (i : Z) (x : A) : index l i = Some x -> In x l.
Proof.
  unfold index. destruct (i <? 0); [discriminate|].
  intros Hx. apply list_elem_of_In. eapply list_elem_of_lookup_2. exact Hx.
Qed.

(** ** Well-formed datasets *)

Lemma datasetOk_row (slices : list (list byte)) (i : Z) (row : list byte) :
  datasetOk slices -> index slices i = Some row -> 1 <= len row <= 16.
Proof.
  intros [_ Hall] Hi. apply index_In in Hi.
  rewrite List.Forall_forall in Hall. now apply Hall.
Qed.

(** ** [view] on a [MemoryBin] *)

(** With a start row that is not negative, [view] neither panics nor fails. *)
Lemma viewLoop_MemoryBin (data : list (list byte)) (homeAddress csrpos csrlin : Z) :
  len data <= GoInt.max_int ->
  forall slots startY count lfCount cache out,
    0 <= startY ->
    exists lf out' cache',
      viewLoop slots {| Data := data; StartY := startY |}
               homeAddress csrpos csrlin count lfCount cache out
      = ViewReturn lf None out' cache'.
Proof.
  intros Hdata. induction slots as [|slots IH]; intros startY count lfCount cache0 out Hy.
  - simpl. eauto.
  - simpl. unfold MemoryBin_Read. simpl.
    destruct (Z.leb_spec (len data) startY) as [|Hlt]; [simpl; eauto|].
    destruct (index_in_range data startY ltac:(lia)) as [bin Hbin]. rewrite Hbin.
    destruct (cacheWrite _ _ _ _) as [out2 cache'].
    unwrap. apply IH. lia.
Qed.

Lemma view_MemoryBin (data : list (list byte)) (startY csrpos csrlin w h : Z)
    (cache0 : gmap Z string) :
  len data <= GoInt.max_int -> 0 <= startY ->
  exists lf out cache',
    view {| Data := data; StartY := startY |} csrpos csrlin w h cache0
    = ViewReturn lf None out cache'.
Proof. intros Hdata Hy. unfold view. now apply viewLoop_MemoryBin. Qed.

(** ** The key dispatcher *)

Lemma oneOf_In (ch : string) (values : list string) :
  oneOf ch values = true -> In ch values.
Proof.
  unfold oneOf. intros H. apply existsb_exists in H as (x & Hx & Heq).
  apply String.eqb_eq in Heq. now subst.
Qed.

Ltac dispatch_cases H :=
  repeat match type of H with
    | context [if String.eqb ?a ?b then _ else _] => destruct (String.eqb a b)
    | context [if oneOf ?a ?b then _ else _] => destruct (oneOf a b)
    | context [if ?a <? ?b then _ else _] => destruct (Z.ltb_spec a b)
    | context [match ?k with [] => _ | _ :: _ => _ end] => destruct k as [|[?|?] ?]
    end.

(** From a cursor on a byte of the dataset, whatever the key, the switch
    leaves a row of the dataset and a column that is not negative. *)
Lemma dispatch_moved (slices : list (list byte)) (ch : string)
    (keys : list KeyAnswer) (col row : Z) (cache0 : gmap Z string)
    (rowBytes : list byte) (c r : Z) cache' keys' o :
  datasetOk slices ->
  index slices row = Some rowBytes -> 0 <= col < len rowBytes ->
  dispatch slices ch keys col row cache0 = Moved c r cache' keys' o ->
  0 <= r < len slices /\ 0 <= c <= 16.
Proof.
  intros Hds Hrow Hcol H.
  pose proof (index_Some _ _ _ Hrow) as Hr.
  pose proof (datasetOk_row _ _ _ Hds Hrow) as Hlen.
  destruct Hds as [Hn _].
  unfold dispatch in H. rewrite Hrow in H. unwrap.
  dispatch_cases H; inversion H; subst; lia.
Qed.

Lemma dispatch_no_panic (slices : list (list byte)) (ch : string)
    (keys : list KeyAnswer) (col row : Z) (cache0 : gmap Z string)
    (rowBytes : list byte) :
  index slices row = Some rowBytes ->
  dispatch slices ch keys col row cache0 <> DispatchPanic.
Proof.
  intros Hrow H. unfold dispatch in H. rewrite Hrow in H.
  dispatch_cases H; discriminate H.
Qed.

Lemma dispatch_right (slices : list (list byte)) (ch : string)
    (keys : list KeyAnswer) (col row : Z) (cache0 : gmap Z string) :
  oneOf ch ["l"; _KEY_RIGHT; _KEY_CTRL_F] = true ->
  dispatch slices ch keys col row cache0 = Moved (GoInt.add col 1) row cache0 keys "".
Proof.
  intros H. apply oneOf_In in H. simpl in H.
  destruct H as [<-|[<-|[<-|[]]]]; reflexivity.
Qed.

Lemma dispatch_quit (slices : list (list byte)) (ch : string)
    (keys : list KeyAnswer) (col row : Z) (cache0 : gmap Z string) :
  oneOf ch ["q"; _KEY_ESC] = true ->
  dispatch slices ch keys col row cache0
  = let out := _ANSI_YELLOW +:+ String CR "Quit Sure ? [y/n]" +:+ ERASE_LINE in
    match keys with
    | [] => DispatchWaiting
    | inr ch' :: keys' =>
        if String.eqb ch' "y" then Quit (out +:+ String LF "")
        else Moved col row cache0 keys' out
    | inl _ :: keys' => Moved col row cache0 keys' out
    end.
Proof.
  intros H. apply oneOf_In in H. simpl in H.
  destruct H as [<-|[<-|[]]]; reflexivity.
Qed.

Lemma clampColumn_row (slices : list (list byte)) (row col : Z) (rowBytes : list byte) :
  index slices row = Some rowBytes ->
  clampColumn slices row col
  = Some (if len rowBytes <=? col then GoInt.sub (len rowBytes) 1 else col).
Proof. intros H. unfold clampColumn. now rewrite H. Qed.

(** ** One turn of the loop, once [view] is known to return *)

Lemma frame_unfold (Truncate : string -> Z -> string -> string)
    (slices : list (list byte)) (st : State) (w h : Z) (keys : list KeyAnswer) :
  len slices <= GoInt.max_int -> 0 <= startRow st ->
  exists lf out1 cache1,
    frame Truncate slices (inr (w, h)) keys st
    = match keys with
      | [] => Waiting
      | inl err :: _ => Return (Some err) out1
      | inr ch :: keys1 =>
          match dispatch slices ch keys1 (colIndex st) (rowIndex st) cache1 with
          | DispatchPanic => Panic
          | DispatchWaiting => Waiting
          | Quit o => Return None (out1 +:+ o)
          | Moved col row cache2 keys2 o =>
              match clampColumn slices row col with
              | None => Panic
              | Some col' =>
                  Next {| colIndex := col';
                          rowIndex := row;
                          startRow := scroll row (startRow st) h;
                          lastWidth :=
                            if negb (lastWidth st =? w) || negb (lastHeight st =? h)
                            then w else lastWidth st;
                          lastHeight :=
                            if negb (lastWidth st =? w) || negb (lastHeight st =? h)
                            then h else lastHeight st;
                          message := "";
                          cache := cache2 |}
                       keys2 (out1 +:+ o +:+ cursorUp lf)
              end
          end
      end.
Proof.
  intros Hdata Hstart. unfold frame. cbv zeta.
  match goal with
  | |- context [@view _ _ _ ?b ?c ?d ?e ?f] =>
      destruct (view_MemoryBin slices (startRow st) b c d e f Hdata Hstart)
        as (lf0 & vout & cache1 & Hview)
  end.
  rewrite Hview. eexists (GoInt.add lf0 1), _, cache1. reflexivity.
Qed.

(** ** Errors of the terminal *)

(** C4, as stated, fails for the read of the confirmation key: its error is
    dropped, the loop goes on, and here it even ends without any error. *)
Lemma C4_counterexample :
  (exists st' out,
     frame noTruncate [hello] (sizeOk 80 24)
           [key "q"; inl (Failure "read"); key "q"; key "y"] initialState
     = Next st' [key "q"; key "y"] out)
  /\ (exists out,
        mainLoop noTruncate [hello] [sizeOk 80 24; sizeOk 80 24]
                 [key "q"; inl (Failure "read"); key "q"; key "y"] initialState ""
        = Finished None out).
Proof.
  split.
  - eexists _, _. vm_compute. reflexivity.
  - eexists. vm_compute. reflexivity.
Qed.

(** C4 (amended). An error of the terminal-size query, or of the key read
    at the top of the loop, ends the loop at once and is its result. An
    error of the read of the confirmation key after "q" or escape is not
    propagated: the turn goes on exactly as for a key other than "y".
    Whatever the loop returns is what [main1] returns. *)
Theorem C4_terminal_errors (Truncate : string -> Z -> string -> string)
    (slices : list (list byte)) (st : State) (keys : list KeyAnswer) (err : error) :
  len slices <= GoInt.max_int -> 0 <= startRow st ->
  (forall sizes out,
     mainLoop Truncate slices (inl err :: sizes) keys st out = Finished (Some err) out)
  /\ (forall w h sizes out, exists out',
        mainLoop Truncate slices (inr (w, h) :: sizes) (inl err :: keys) st out
        = Finished (Some err) out')
  /\ (forall w h ch, oneOf ch ["q"; _KEY_ESC] = true ->
        frame Truncate slices (inr (w, h)) (inr ch :: inl err :: keys) st
        = frame Truncate slices (inr (w, h)) (inr ch :: inr "n" :: keys) st
        /\ forall e out,
             frame Truncate slices (inr (w, h)) (inr ch :: inl err :: keys) st
             <> Return (Some e) out)
  /\ (forall reads answers pressed,
        load reads [] = Loaded slices -> (len slices <=? 0) = false ->
        main1 Truncate (inr reads) (inr {| sizes := answers; keys := pressed |})
        = match mainLoop Truncate slices answers pressed initialState
                         _ANSI_CURSOR_OFF with
          | Finished e out => Finished e (out +:+ _ANSI_CURSOR_ON)
          | r => r
          end).
Proof.
  intros Hdata Hstart. split; [|split; [|split]].
  - intros sizes out. simpl. now rewrite append_nil_r.
  - intros w h sizes out. cbn [mainLoop].
    destruct (frame_unfold Truncate slices st w h (inl err :: keys) Hdata Hstart)
      as (lf & out1 & cache1 & ->). eauto.
  - intros w h ch Hq.
    assert (Heq : forall cache1,
      dispatch slices ch (inl err :: keys) (colIndex st) (rowIndex st) cache1
      = dispatch slices ch (inr "n" :: keys) (colIndex st) (rowIndex st) cache1).
    { intros cache1. now rewrite !dispatch_quit by exact Hq. }
    split.
    + unfold frame. cbv zeta. destruct (view _ _ _ _ _ _) as [lf [e|] vout cache1|];
        try reflexivity. now rewrite Heq.
    + intros e out.
      destruct (frame_unfold Truncate slices st w h (inr ch :: inl err :: keys)
                  Hdata Hstart) as (lf & out1 & cache1 & ->).
      rewrite dispatch_quit by exact Hq. cbv beta iota zeta.
      destruct (clampColumn _ _ _); discriminate.
  - intros reads answers pressed Hload Hne. unfold main1. now rewrite Hload, Hne.
Qed.

Lemma C4_terminal_errors_witness :
  (len [hello] <= GoInt.max_int /\ 0 <= startRow initialState)
  /\ mainLoop noTruncate [hello] [inl (Failure "size")] [key "l"] initialState ""
     = Finished (Some (Failure "size")) "".
Proof.
  assert (H1 : len [hello] <= GoInt.max_int) by (vm_compute; discriminate).
  assert (H2 : 0 <= startRow initialState) by (simpl; lia).
  split; [split; assumption|].
  apply (C4_terminal_errors noTruncate [hello] initialState [key "l"] (Failure "size") H1 H2).
Defined.

(** ** Equivalent keys *)

(** C9. In the loop, "j", "k", "h" and "l" do exactly what the down, up,
    left and right tokens do: the whole turn (next state, keys left,
    output) is the same. *)
Theorem C9_vi_keys (Truncate : string -> Z -> string -> string)
    (slices : list (list byte)) (size : SizeAnswer) (keys : list KeyAnswer)
    (st : State) :
  frame Truncate slices size (key "j" :: keys) st
  = frame Truncate slices size (key _KEY_DOWN :: keys) st
  /\ frame Truncate slices size (key "k" :: keys) st
     = frame Truncate slices size (key _KEY_UP :: keys) st
  /\ frame Truncate slices size (key "h" :: keys) st
     = frame Truncate slices size (key _KEY_LEFT :: keys) st
  /\ frame Truncate slices size (key "l" :: keys) st
     = frame Truncate slices size (key _KEY_RIGHT :: keys) st.
Proof.
  destruct size as [err|[w h]]; [repeat split|].
  unfold frame, key. cbv zeta.
  destruct (view _ _ _ _ _ _) as [lf [e|] vout cache1|]; repeat split.
Qed.

(** ** The dataset *)

Lemma load_Forall (P : list byte -> Prop) (reads : list ReadAnswer) :
  (forall chunk err, In (chunk, err) reads -> 0 < len chunk <= 16 -> P chunk) ->
  forall slices out,
    Forall P slices -> load reads slices = Loaded out -> Forall P out.
Proof.
  induction reads as [|[chunk err] rest IH]; intros HP slices out Hs Hload.
  - simpl in Hload. now inversion Hload; subst.
  - simpl in Hload.
    destruct (Z.ltb_spec 16 (len chunk)) as [|Hle]; [discriminate|].
    assert (Hs' : Forall P (if 0 <? len chunk then (slices ++ [chunk])%list else slices)).
    { destruct (Z.ltb_spec 0 (len chunk)) as [Hpos|]; [|exact Hs].
      apply Forall_app. split; [exact Hs|].
      constructor; [|constructor]. apply (HP chunk err); [now left | lia]. }
    destruct err as [[|msg]|].
    + now inversion Hload; subst.
    + discriminate.
    + apply (IH (fun c e Hin => HP c e (or_intror Hin)) _ _ Hs' Hload).
Qed.

Lemma load_lengths (reads : list ReadAnswer) (slices : list (list byte)) :
  load reads [] = Loaded slices -> Forall (fun r => 1 <= len r <= 16) slices.
Proof.
  intros Hload.
  apply (load_Forall _ reads) with (slices := []) (out := slices);
    [intros; lia | constructor | exact Hload].
Qed.

(** What [main1] hands to its loop is a well-formed dataset. *)
Lemma loaded_datasetOk (reads : list ReadAnswer) (slices : list (list byte)) :
  load reads [] = Loaded slices -> (len slices <=? 0) = false ->
  len slices <= GoInt.max_int -> datasetOk slices.
Proof.
  intros Hload Hne Hmax. apply Z.leb_gt in Hne.
  split; [lia|]. exact (load_lengths _ _ Hload).
Qed.

(** C10. Every record of the dataset built by the loader has between 1
    and 16 bytes. Hence "$" (or ctrl-e) on a row of the dataset gives a
    column that is not negative, and the clamp, when it changes the column,
    does not make it negative either. *)
Theorem C10_record_lengths (reads : list ReadAnswer) (slices : list (list byte)) :
  load reads [] = Loaded slices ->
  Forall (fun r => 1 <= len r <= 16) slices
  /\ (forall ch keys col row cache0,
        oneOf ch ["$"; _KEY_CTRL_E] = true ->
        match dispatch slices ch keys col row cache0 with
        | Moved c r _ _ _ => r = row /\ 0 <= c
        | DispatchPanic => index slices row = None
        | _ => False
        end)
  /\ (forall row col,
        match clampColumn slices row col with
        | Some c => c = col \/ 0 <= c
        | None => index slices row = None
        end).
Proof.
  intros Hload.
  pose proof (load_lengths _ _ Hload) as Hall.
  split; [exact Hall|]. split.
  - intros ch keys col row cache0 Hch.
    apply oneOf_In in Hch. simpl in Hch.
    assert (Heq : dispatch slices ch keys col row cache0
                  = match index slices row with
                    | None => DispatchPanic
                    | Some r => Moved (GoInt.sub (len r) 1) row cache0 keys ""
                    end)
      by (destruct Hch as [<-|[<-|[]]]; reflexivity).
    rewrite Heq. destruct (index slices row) as [r|] eqn:Hr; [|reflexivity].
    apply index_In in Hr. rewrite List.Forall_forall in Hall.
    specialize (Hall r Hr). unwrap. lia.
  - intros row col. unfold clampColumn.
    destruct (index slices row) as [r|] eqn:Hr; [|reflexivity].
    apply index_In in Hr. rewrite List.Forall_forall in Hall.
    specialize (Hall r Hr).
    destruct (Z.leb_spec (len r) col); [right; unwrap; lia | now left].
Qed.

Lemma C10_record_lengths_witness :
  load [(hello, None); ([x21; x0a], Some EOF)] [] = Loaded [hello; [x21; x0a]]
  /\ Forall (fun r => 1 <= len r <= 16) [hello; [x21; x0a]].
Proof.
  assert (H : load [(hello, None); ([x21; x0a], Some EOF)] [] = Loaded [hello; [x21; x0a]])
    by reflexivity.
  split; [exact H|].
  exact (proj1 (C10_record_lengths _ _ H)).
Defined.

(** ** The cursor stays on a byte *)

Lemma frame_Next_inv (Truncate : string -> Z -> string -> string)
    (slices : list (list byte)) (w h : Z) (keys : list KeyAnswer)
    (st st' : State) (keys' : list KeyAnswer) (out : string) :
  frame Truncate slices (inr (w, h)) keys st = Next st' keys' out ->
  exists ch keys1 cache1 col cache2 o,
    keys = inr ch :: keys1
    /\ dispatch slices ch keys1 (colIndex st) (rowIndex st) cache1
       = Moved col (rowIndex st') cache2 keys' o
    /\ clampColumn slices (rowIndex st') col = Some (colIndex st')
    /\ startRow st' = scroll (rowIndex st') (startRow st) h.
Proof.
  unfold frame. cbv zeta.
  destruct (view _ _ _ _ _ _) as [lf [e|] vout cache1|]; try discriminate.
  destruct keys as [|[e|ch] keys1]; try discriminate.
  destruct (dispatch _ _ _ _ _ _) as [col row cache2 keys2 o|o| |] eqn:Hd;
    try discriminate.
  destruct (clampColumn _ _ _) as [col'|] eqn:Hc; try discriminate.
  intros H. inversion H; subst; clear H. simpl.
  exists ch, keys1, cache1, col, cache2, o. auto.
Qed.

Lemma frame_keeps_cursor (Truncate : string -> Z -> string -> string)
    (slices : list (list byte)) (size : SizeAnswer) (keys : list KeyAnswer)
    (st st' : State) (keys' : list KeyAnswer) (out : string) :
  datasetOk slices -> cursorOk slices st ->
  frame Truncate slices size keys st = Next st' keys' out ->
  cursorOk slices st'.
Proof.
  intros Hds Hcur Hf. destruct size as [e|[w h]]; [discriminate|].
  apply frame_Next_inv in Hf
    as (ch & keys1 & cache1 & col & cache2 & o & -> & Hd & Hc & _).
  unfold cursorOk in Hcur.
  destruct (index slices (rowIndex st)) as [rowBytes|] eqn:Hrow; [|contradiction].
  destruct (dispatch_moved _ _ _ _ _ _ _ _ _ _ _ _ Hds Hrow Hcur Hd) as [Hr Hcol].
  destruct (index_in_range slices (rowIndex st') Hr) as [rb Hrb].
  rewrite (clampColumn_row _ _ _ _ Hrb) in Hc. inversion Hc as [Hcol'].
  pose proof (datasetOk_row _ _ _ Hds Hrb) as Hlen.
  unfold cursorOk. rewrite Hrb.
  destruct (Z.leb_spec (len rb) col); unwrap; lia.
Qed.

Lemma scroll_bounds (slices : list (list byte)) (row startRow0 h : Z) :
  0 <= row < len slices -> 0 <= startRow0 <= len slices + 1 ->
  0 <= h -> h + len slices < GoInt.max_int ->
  0 <= scroll row startRow0 h <= len slices + 1.
Proof.
  intros Hrow Hstart Hh Hsum. unfold scroll. unwrap.
  destruct (Z.ltb_spec row startRow0); [lia|].
  destruct (Z.leb_spec (startRow0 + h - 1) row); lia.
Qed.

Lemma right_keys_stay (Truncate : string -> Z -> string -> string)
    (slices : list (list byte)) :
  datasetOk slices ->
  forall (chs : list string) (sizes : list SizeAnswer) (st : State) (out : string)
         (row : list byte),
    Forall (fun ch => oneOf ch ["l"; _KEY_RIGHT; _KEY_CTRL_F] = true) chs ->
    length sizes = length chs -> Forall (sizeSane slices) sizes ->
    index slices (rowIndex st) = Some row -> colIndex st = len row - 1 ->
    0 <= startRow st <= len slices + 1 ->
    exists st',
      mainLoop Truncate slices sizes (map inr chs) st out = Blocked st'
      /\ rowIndex st' = rowIndex st /\ colIndex st' = len row - 1.
Proof.
  intros Hds. induction chs as [|ch chs IH];
    intros sizes st out row Hchs Hlen Hsizes Hrow Hcol Hstart.
  - destruct sizes; [|discriminate]. simpl. eauto.
  - destruct sizes as [|[e|[w h]] sizes]; [discriminate| |].
    + inversion Hsizes as [|? ? Hs _]. contradiction Hs.
    + inversion Hchs as [|? ? Hch Hchs']; subst.
      inversion Hsizes as [|? ? Hsane Hsizes']; subst.
      destruct Hsane as [Hh Hsum].
      injection Hlen as Hlen.
      pose proof (datasetOk_row _ _ _ Hds Hrow) as Hrlen.
      pose proof (index_Some _ _ _ Hrow) as Hr.
      destruct Hds as [Hn Hall].
      cbn [mainLoop map].
      destruct (frame_unfold Truncate slices st w h (inr ch :: map inr chs)
                  ltac:(lia) ltac:(lia)) as (lf & out1 & cache1 & ->).
      rewrite (dispatch_right _ _ _ _ _ _ Hch). cbv beta iota zeta.
      rewrite (clampColumn_row _ _ _ _ Hrow).
      match goal with
      | |- context [mainLoop _ _ _ _ ?s ?o] =>
          destruct (IH sizes s o row Hchs' Hlen Hsizes') as (st' & Hrun & Hr' & Hc')
      end.
      * exact Hrow.
      * simpl. rewrite Hcol. unwrap.
        destruct (Z.leb_spec (len row) (len row - 1 + 1)); lia.
      * simpl. apply (scroll_bounds slices); [exact Hr | exact Hstart | exact Hh | exact Hsum].
      * exists st'. split; [exact Hrun|]. split; [exact Hr' | exact Hc'].
Qed.

(** On a well-formed dataset and a terminal of sane height, a turn of the
    loop never panics, and it keeps the cursor on a byte and the start row
    between 0 and the number of records plus one. *)
Lemma frame_safe (Truncate : string -> Z -> string -> string)
    (slices : list (list byte)) (size : SizeAnswer) (keys : list KeyAnswer)
    (st : State) :
  datasetOk slices -> cursorOk slices st -> windowOk slices st ->
  sizeSane slices size ->
  match frame Truncate slices size keys st with
  | Next st' _ _ => cursorOk slices st' /\ windowOk slices st'
  | Panic => False
  | _ => True
  end.
Proof.
  intros Hds Hcur Hwin Hsane. destruct size as [e|[w h]]; [contradiction Hsane|].
  destruct Hsane as [Hh Hsum]. unfold windowOk in *.
  assert (Hmax : len slices <= GoInt.max_int) by (destruct Hds; lia).
  pose proof Hcur as Hcur0. unfold cursorOk in Hcur0.
  destruct (index slices (rowIndex st)) as [rowBytes|] eqn:Hrow; [|contradiction].
  destruct (frame Truncate slices (inr (w, h)) keys st) as [st' keys' o|e o| |] eqn:Hf;
    try exact I.
  - split; [eapply frame_keeps_cursor; eassumption|].
    apply frame_Next_inv in Hf
      as (ch & keys1 & cache1 & col & cache2 & o' & _ & Hd & _ & Hs).
    destruct (dispatch_moved _ _ _ _ _ _ _ _ _ _ _ _ Hds Hrow Hcur0 Hd) as [Hr _].
    rewrite Hs. now apply scroll_bounds.
  - destruct (frame_unfold Truncate slices st w h keys Hmax ltac:(lia))
      as (lf & out1 & cache1 & Heq).
    rewrite Heq in Hf. destruct keys as [|[e|ch] keys1]; try discriminate Hf.
    destruct (dispatch slices ch keys1 (colIndex st) (rowIndex st) cache1)
      as [col row cache2 keys2 o|o| |] eqn:Hd; try discriminate Hf.
    + destruct (dispatch_moved _ _ _ _ _ _ _ _ _ _ _ _ Hds Hrow Hcur0 Hd) as [Hr _].
      destruct (index_in_range slices row Hr) as [rb Hrb].
      rewrite (clampColumn_row _ _ _ _ Hrb) in Hf. discriminate Hf.
    + exact (dispatch_no_panic _ _ _ _ _ _ _ Hrow Hd).
Qed.

(** The loop as a whole does not panic. *)
Lemma mainLoop_no_panic (Truncate : string -> Z -> string -> string)
    (slices : list (list byte)) :
  datasetOk slices ->
  forall (answers : list SizeAnswer) (keys : list KeyAnswer) (st : State) (out : string),
    Forall (sizeSane slices) answers ->
    cursorOk slices st -> windowOk slices st ->
    mainLoop Truncate slices answers keys st out <> Panicked.
Proof.
  intros Hds answers. induction answers as [|size answers IH];
    intros keys st out Hsane Hcur Hwin; [discriminate|].
  inversion Hsane as [|? ? Hs Hrest]; subst. cbn [mainLoop].
  pose proof (frame_safe Truncate slices size keys st Hds Hcur Hwin Hs) as Hsafe.
  destruct (frame Truncate slices size keys st) as [st' keys' o|e o| |];
    [|discriminate|contradiction|discriminate].
  destruct Hsafe as [Hcur' Hwin']. now apply IH.
Qed.

(** Whatever the terminal answers, wherever the run of "move right" keys
    stops, the cursor is still on the last column of its row. *)
Lemma right_keys_safe (Truncate : string -> Z -> string -> string)
    (slices : list (list byte)) :
  datasetOk slices ->
  forall (sizes : list SizeAnswer) (chs : list string) (st : State) (out : string)
         (row : list byte),
    Forall (fun ch => oneOf ch ["l"; _KEY_RIGHT; _KEY_CTRL_F] = true) chs ->
    index slices (rowIndex st) = Some row -> colIndex st = len row - 1 ->
    match mainLoop Truncate slices sizes (map inr chs) st out with
    | Blocked st' => rowIndex st' = rowIndex st /\ colIndex st' = len row - 1
    | _ => True
    end.
Proof.
  intros Hds answers.
  induction answers as [|size answers IH]; intros chs st out row Hchs Hrow Hcol.
  - simpl. auto.
  - cbn [mainLoop].
    destruct (frame Truncate slices size (map inr chs) st) as [st' keys' o|e o| |] eqn:Hf;
      [|exact I|exact I|split; [reflexivity|exact Hcol]].
    destruct size as [e|[w h]]; [discriminate Hf|].
    apply frame_Next_inv in Hf
      as (ch & keys1 & cache1 & col & cache2 & o' & Hkeys & Hd & Hc & _).
    destruct chs as [|ch0 chs']; [discriminate Hkeys|].
    simpl in Hkeys. injection Hkeys as Hch0 Hk1. subst ch keys1.
    inversion Hchs as [|? ? Hch Hchs']; subst.
    rewrite (dispatch_right _ _ _ _ _ _ Hch) in Hd.
    injection Hd as <- Hr <- <- <-.
    pose proof (datasetOk_row _ _ _ Hds Hrow) as Hlen.
    rewrite <- Hr in *.
    rewrite (clampColumn_row _ _ _ _ Hrow) in Hc. injection Hc as Hc.
    assert (Hcol' : colIndex st' = len row - 1).
    { rewrite <- Hc, Hcol. unwrap.
      destruct (Z.leb_spec (len row) (len row - 1 + 1)); lia. }
    assert (Hrow' : index slices (rowIndex st') = Some row) by now rewrite <- Hr.
    specialize (IH chs' st' (out +:+ o) row Hchs' Hrow' Hcol').
    destruct (mainLoop _ _ _ _ _ _); auto.
    rewrite <- Hr in IH. exact IH.
Qed.

(** C5. The cursor starts on a byte of the dataset, and every turn of the
    loop that goes on leaves it on one: 0 <= column <= len(row) - 1 for the
    row it is then on. From the last column of a row, any number of "move
    right" keys leaves the cursor on that row and on its last column: in
    whatever state the run stops, and, when the terminal answers one sane
    size per key, after all of them. *)
Theorem C5_column_clamped (Truncate : string -> Z -> string -> string)
    (slices : list (list byte)) :
  datasetOk slices ->
  cursorOk slices initialState
  /\ (forall st size keys,
        cursorOk slices st ->
        match frame Truncate slices size keys st with
        | Next st' _ _ => cursorOk slices st'
        | _ => True
        end)
  /\ (forall (chs : list string) (sizes : list SizeAnswer) (st : State)
             (out : string) (row : list byte),
        Forall (fun ch => oneOf ch ["l"; _KEY_RIGHT; _KEY_CTRL_F] = true) chs ->
        index slices (rowIndex st) = Some row -> colIndex st = len row - 1 ->
        match mainLoop Truncate slices sizes (map inr chs) st out with
        | Blocked st' => rowIndex st' = rowIndex st /\ colIndex st' = len row - 1
        | _ => True
        end
        /\ (length sizes = length chs -> Forall (sizeSane slices) sizes ->
            0 <= startRow st <= len slices + 1 ->
            exists st',
              mainLoop Truncate slices sizes (map inr chs) st out = Blocked st'
              /\ rowIndex st' = rowIndex st /\ colIndex st' = len row - 1)).
Proof.
  intros Hds. split; [|split].
  - unfold cursorOk. simpl.
    destruct (index_in_range slices 0) as [row Hrow]; [destruct Hds; lia|].
    rewrite Hrow. pose proof (datasetOk_row _ _ _ Hds Hrow). lia.
  - intros st size keys Hcur.
    destruct (frame Truncate slices size keys st) as [st' keys' o|e o| |] eqn:Hf; auto.
    eapply frame_keeps_cursor; eassumption.
  - intros chs sizes st out row Hchs Hrow Hcol. split.
    + now apply right_keys_safe.
    + intros Hlen Hsizes Hstart. now apply right_keys_stay.
Qed.

Lemma datasetOk_hello : datasetOk [hello].
Proof.
  split; [vm_compute; split; discriminate|].
  constructor; [vm_compute; split; discriminate | constructor].
Qed.

Lemma C5_column_clamped_witness :
  datasetOk [hello]
  /\ cursorOk [hello] initialState
  /\ exists st',
       mainLoop noTruncate [hello] [sizeOk 80 24; sizeOk 80 24; sizeOk 80 24]
                (map inr ["l"; _KEY_RIGHT; _KEY_CTRL_F]) atLastColumn ""
       = Blocked st'
       /\ rowIndex st' = rowIndex atLastColumn /\ colIndex st' = len hello - 1.
Proof.
  split; [exact datasetOk_hello|].
  destruct (C5_column_clamped noTruncate [hello] datasetOk_hello) as (H0 & _ & Hright).
  split; [exact H0|].
  refine (proj2 (Hright ["l"; _KEY_RIGHT; _KEY_CTRL_F] _ atLastColumn "" hello
                   _ _ _) _ _ _).
  - repeat constructor.
  - reflexivity.
  - reflexivity.
  - reflexivity.
  - repeat constructor; vm_compute; discriminate.
  - vm_compute. split; discriminate.
Defined.

(** ** Scrolling *)

(** C6, as stated, fails when no row is available for data: on a terminal
    of one line heightInRows is 0, and after moving down to row 1 the start
    row becomes 2, past the cursor. *)
Lemma C6_counterexample :
  exists st' out,
    frame noTruncate [hello; hello] (sizeOk 80 1) [key "j"] initialState
    = Next st' [] out
    /\ rowIndex st' = 1 /\ startRow st' = 2
    /\ ~ (startRow st' <= rowIndex st' < startRow st' + (1 - 1)).
Proof.
  eexists _, _. split; [vm_compute; reflexivity|].
  split; [reflexivity|]. split; [reflexivity|]. simpl. lia.
Qed.

(** C6 (amended). With heightInRows = screenHeight - 1 at least 1 (and a
    start row that is not negative and whose sum with the screen height is
    still an [int]), every
    turn of the loop that goes on sets the start row by the rule: row if
    row < startRow, row - heightInRows + 1 if row >= startRow +
    heightInRows, unchanged otherwise; and then
    startRow <= row < startRow + heightInRows. *)
Theorem C6_viewport_follows_cursor (Truncate : string -> Z -> string -> string)
    (slices : list (list byte)) (st : State) (w h : Z) (keys : list KeyAnswer) :
  len slices <= GoInt.max_int ->
  1 <= h - 1 ->
  0 <= startRow st -> startRow st + h <= GoInt.max_int ->
  match frame Truncate slices (inr (w, h)) keys st with
  | Next st' _ _ =>
      let heightInRows := h - 1 in
      startRow st'
      = (if rowIndex st' <? startRow st then rowIndex st'
         else if startRow st + heightInRows <=? rowIndex st'
              then rowIndex st' - heightInRows + 1
              else startRow st)
      /\ startRow st' <= rowIndex st' < startRow st' + heightInRows
  | _ => True
  end.
Proof.
  intros Hdata Hh Hlo Hhi.
  destruct (frame Truncate slices (inr (w, h)) keys st) as [st' keys' o|e o| |] eqn:Hf;
    auto.
  apply frame_Next_inv in Hf
    as (ch & keys1 & cache1 & col & cache2 & o' & _ & _ & Hc & Hs).
  assert (Hrow : 0 <= rowIndex st' < len slices).
  { unfold clampColumn in Hc.
    destruct (index slices (rowIndex st')) as [rb|] eqn:Hrb; [|discriminate].
    exact (index_Some _ _ _ Hrb). }
  cbv zeta. rewrite Hs. unfold scroll. unwrap.
  replace (startRow st + h - 1) with (startRow st + (h - 1)) by lia.
  destruct (Z.ltb_spec (rowIndex st') (startRow st)); [lia|].
  destruct (Z.leb_spec (startRow st + (h - 1)) (rowIndex st')); lia.
Qed.

Lemma C6_viewport_follows_cursor_witness :
  (len [hello; hello] <= GoInt.max_int /\ 1 <= 2 - 1
   /\ 0 <= startRow initialState
   /\ startRow initialState + 2 <= GoInt.max_int)
  /\ match frame noTruncate [hello; hello] (inr (80, 2)) [key "j"] initialState with
     | Next st' _ _ =>
         let heightInRows := 2 - 1 in
         startRow st'
         = (if rowIndex st' <? startRow initialState then rowIndex st'
            else if startRow initialState + heightInRows <=? rowIndex st'
                 then rowIndex st' - heightInRows + 1
                 else startRow initialState)
         /\ startRow st' <= rowIndex st' < startRow st' + heightInRows
     | _ => True
     end.
Proof.
  assert (H1 : len [hello; hello] <= GoInt.max_int) by (vm_compute; discriminate).
  assert (H2 : 1 <= 2 - 1) by lia.
  assert (H3 : 0 <= startRow initialState) by (vm_compute; discriminate).
  assert (H4 : startRow initialState + 2 <= GoInt.max_int) by (vm_compute; discriminate).
  split; [repeat split; assumption|].
  exact (C6_viewport_follows_cursor noTruncate [hello; hello] initialState 80 2
           [key "j"] H1 H2 H3 H4).
Defined.

(** ** Leaving *)

(** C8, as stated, fails for the start row: the scroll rule runs after an
    unconfirmed quit as after any key. Here the cursor was moved to row 5 on
    a terminal of 11 lines, the terminal was then resized to 4 lines, and
    "q" followed by "n" moves the start row from 0 to 3. *)
Lemma C8_counterexample :
  exists st st' out,
    mainLoop noTruncate (replicate 6 hello) (replicate 5 (sizeOk 80 11))
             (replicate 5 (key "j")) initialState ""
    = Blocked st
    /\ frame noTruncate (replicate 6 hello) (sizeOk 80 4) [key "q"; key "n"] st
       = Next st' [] out
    /\ rowIndex st = 5 /\ rowIndex st' = 5
    /\ startRow st = 0 /\ startRow st' = 3.
Proof.
  eexists _, _, _. split; [vm_compute; reflexivity|].
  split; [vm_compute; reflexivity|]. repeat split.
Qed.

(** C8 (amended). After "q" or escape, the answer "y" ends the loop with no
    error. Any other answer (a failed read included) lets the loop go on
    with the same cursor row and column; the start row is then set by the
    scroll rule as after every key. For a terminal of at least one line
    (and no overflow of the start row plus the height), it is therefore
    unchanged exactly when the cursor row is inside the window of the
    current terminal height, and when that window has at least one row the
    new window holds the cursor row. *)
Theorem C8_quit_confirmation (Truncate : string -> Z -> string -> string)
    (slices : list (list byte)) (st : State) (w h : Z) (ch : string)
    (answer : KeyAnswer) (keys : list KeyAnswer) :
  datasetOk slices -> cursorOk slices st -> 0 <= startRow st ->
  oneOf ch ["q"; _KEY_ESC] = true ->
  match frame Truncate slices (inr (w, h)) (inr ch :: answer :: keys) st with
  | Return None _ => answer = inr "y"
  | Next st' keys' _ =>
      answer <> inr "y" /\ keys' = keys
      /\ rowIndex st' = rowIndex st /\ colIndex st' = colIndex st
      /\ startRow st' = scroll (rowIndex st) (startRow st) h
      /\ (startRow st <= rowIndex st < startRow st + (h - 1) ->
          startRow st + h <= GoInt.max_int ->
          startRow st' = startRow st)
      /\ (1 <= h -> startRow st + h <= GoInt.max_int ->
          (startRow st' = startRow st
           <-> startRow st <= rowIndex st < startRow st + (h - 1))
          /\ (1 <= h - 1 ->
              startRow st' <= rowIndex st' < startRow st' + (h - 1)))
  | _ => False
  end.
Proof.
  intros Hds Hcur Hstart Hq.
  unfold cursorOk in Hcur.
  destruct (index slices (rowIndex st)) as [rowBytes|] eqn:Hrow; [|contradiction].
  pose proof (index_Some _ _ _ Hrow) as Hr.
  assert (Hmax : len slices <= GoInt.max_int) by (destruct Hds; lia).
  destruct (frame_unfold Truncate slices st w h (inr ch :: answer :: keys) Hmax Hstart)
    as (lf & out1 & cache1 & ->).
  rewrite (dispatch_quit _ _ _ _ _ _ Hq). cbv beta iota zeta.
  assert (Hgo : forall cache2 o,
    answer <> inr "y" ->
    match
      match clampColumn slices (rowIndex st) (colIndex st) with
      | Some col' =>
          Next {| colIndex := col'; rowIndex := rowIndex st;
                  startRow := scroll (rowIndex st) (startRow st) h;
                  lastWidth :=
                    if negb (lastWidth st =? w) || negb (lastHeight st =? h)
                    then w else lastWidth st;
                  lastHeight :=
                    if negb (lastWidth st =? w) || negb (lastHeight st =? h)
                    then h else lastHeight st;
                  message := ""; cache := cache2 |} keys o
      | None => Panic
      end
    with
    | Return None _ => answer = inr "y"
    | Next st' keys' _ =>
        answer <> inr "y" /\ keys' = keys
        /\ rowIndex st' = rowIndex st /\ colIndex st' = colIndex st
        /\ startRow st' = scroll (rowIndex st) (startRow st) h
        /\ (startRow st <= rowIndex st < startRow st + (h - 1) ->
            startRow st + h <= GoInt.max_int ->
            startRow st' = startRow st)
        /\ (1 <= h -> startRow st + h <= GoInt.max_int ->
            (startRow st' = startRow st
             <-> startRow st <= rowIndex st < startRow st + (h - 1))
            /\ (1 <= h - 1 ->
                startRow st' <= rowIndex st' < startRow st' + (h - 1)))
    | _ => False
    end).
  { intros cache2 o Hny. rewrite (clampColumn_row _ _ _ _ Hrow). simpl.
    split; [exact Hny|]. split; [reflexivity|]. split; [reflexivity|].
    split; [destruct (Z.leb_spec (len rowBytes) (colIndex st)); [lia | reflexivity]|].
    split; [reflexivity|].
    split.
    - intros Hvis Hsum. unfold scroll. unwrap.
      destruct (Z.ltb_spec (rowIndex st) (startRow st)); [lia|].
      destruct (Z.leb_spec (startRow st + h - 1) (rowIndex st)); [lia | reflexivity].
    - intros Hh Hsum. unfold scroll. unwrap.
      destruct (Z.ltb_spec (rowIndex st) (startRow st));
        [|destruct (Z.leb_spec (startRow st + h - 1) (rowIndex st))];
        (split; [split; lia | lia]). }
  destruct answer as [e|ch'].
  - apply Hgo. discriminate.
  - destruct (String.eqb_spec ch' "y") as [->|Hne].
    + reflexivity.
    + apply Hgo. congruence.
Qed.

Lemma C8_quit_confirmation_witness :
  (datasetOk [hello] /\ cursorOk [hello] initialState /\ 0 <= startRow initialState
   /\ oneOf "q" ["q"; _KEY_ESC] = true)
  /\ match frame noTruncate [hello] (inr (80, 24)) (inr "q" :: key "n" :: []) initialState with
     | Return None _ => key "n" = inr "y"
     | Next st' keys' _ =>
         key "n" <> inr "y" /\ keys' = []
         /\ rowIndex st' = rowIndex initialState /\ colIndex st' = colIndex initialState
         /\ startRow st' = scroll (rowIndex initialState) (startRow initialState) 24
         /\ (startRow initialState <= rowIndex initialState < startRow initialState + (24 - 1) ->
             startRow initialState + 24 <= GoInt.max_int ->
             startRow st' = startRow initialState)
         /\ (1 <= 24 -> startRow initialState + 24 <= GoInt.max_int ->
             (startRow st' = startRow initialState
              <-> startRow initialState <= rowIndex initialState
                  < startRow initialState + (24 - 1))
             /\ (1 <= 24 - 1 ->
                 startRow st' <= rowIndex st' < startRow st' + (24 - 1)))
     | _ => False
     end.
Proof.
  assert (H2 : cursorOk [hello] initialState) by (vm_compute; split; [discriminate | reflexivity]).
  assert (H3 : 0 <= startRow initialState) by (simpl; lia).
  assert (H4 : oneOf "q" ["q"; _KEY_ESC] = true) by reflexivity.
  split; [repeat split; try assumption; apply datasetOk_hello|].
  exact (C8_quit_confirmation noTruncate [hello] initialState 80 24 "q" (key "n") []
           datasetOk_hello H2 H3 H4).
Defined.

(** ** The diff cache *)

Lemma draw_nonempty (address cursorPos : Z) (slice : list byte) :
  draw address cursorPos slice <> "".
Proof.
  unfold draw, drawAddress. rewrite !append_assoc.
  destruct (fmt_X 8 address) as [|c s]; rewrite ?append_nil_l, append_cons;
    discriminate.
Qed.

Lemma shouldWrite_insert (cache0 : gmap Z string) (count : Z) (line : string) :
  shouldWrite (<[count := line]> cache0) count line = false.
Proof.
  unfold shouldWrite. rewrite lookup_insert_eq. simpl.
  now rewrite String.eqb_refl.
Qed.

Lemma shouldWrite_after (cache0 : gmap Z string) (count : Z) (line out : string) :
  shouldWrite (snd (cacheWrite cache0 count line out)) count line = false.
Proof.
  unfold cacheWrite. destruct (shouldWrite cache0 count line) eqn:Hw; simpl.
  - apply shouldWrite_insert.
  - exact Hw.
Qed.

Lemma shouldWrite_other (cache0 : gmap Z string) (count other : Z)
    (line line' out : string) :
  other <> count ->
  shouldWrite (snd (cacheWrite cache0 other line' out)) count line
  = shouldWrite cache0 count line.
Proof.
  intros Hne. unfold cacheWrite.
  destruct (shouldWrite cache0 other line'); simpl; [|reflexivity].
  unfold shouldWrite. now rewrite lookup_insert_ne.
Qed.

Lemma shouldWrite_empty (count : Z) (line : string) :
  line <> "" -> shouldWrite ∅ count line = true.
Proof.
  intros Hne. unfold shouldWrite. rewrite lookup_empty. simpl.
  destruct line; [contradiction | reflexivity].
Qed.

Lemma cacheWrite_other (cache0 : gmap Z string) (count k : Z) (line out : string) :
  k <> count -> snd (cacheWrite cache0 count line out) !! k = cache0 !! k.
Proof.
  intros Hne. unfold cacheWrite.
  destruct (shouldWrite cache0 count line); simpl; [|reflexivity].
  now rewrite lookup_insert_ne.
Qed.

(** [view] only writes the slots from [count] on. *)
Lemma viewLoop_below {T : Type} `{BinIn T} (homeAddress csrpos csrlin : Z) :
  forall (slots : nat) (in_ : T) (count lfCount : Z) (cache0 : gmap Z string)
         (out : string) lf err out1 cache1,
    0 <= count -> count + Z.of_nat slots <= GoInt.max_int ->
    viewLoop slots in_ homeAddress csrpos csrlin count lfCount cache0 out
    = ViewReturn lf err out1 cache1 ->
    forall k, k < count -> cache1 !! k = cache0 !! k.
Proof.
  induction slots as [|slots IH];
    intros in_ count lfCount cache0 out lf err out1 cache1 Hc Hmax Hrun k Hk.
  - simpl in Hrun. now inversion Hrun; subst.
  - simpl in Hrun. destruct (Read in_) as [[bin|[|msg]|] in'].
    + destruct (cacheWrite cache0 count _ _) as [out2 cache'] eqn:Hw.
      unwrap.
      assert (H0 : 0 <= count + 1) by lia.
      assert (H1 : count + 1 + Z.of_nat slots <= GoInt.max_int) by lia.
      rewrite (IH _ _ _ _ _ _ _ _ _ H0 H1 Hrun k ltac:(lia)).
      change cache' with (snd (out2, cache')). rewrite <- Hw.
      apply cacheWrite_other. lia.
    + now inversion Hrun; subst.
    + now inversion Hrun; subst.
    + discriminate.
Qed.

(** Run [view] again on the cache it left: same result, and nothing is
    written but the line breaks. *)
Lemma viewLoop_again {T : Type} `{BinIn T} (homeAddress csrpos csrlin : Z) :
  forall (slots : nat) (in_ : T) (count lfCount : Z) (cache0 : gmap Z string)
         (out : string) lf err out1 cache1,
    0 <= count -> count + Z.of_nat slots <= GoInt.max_int ->
    viewLoop slots in_ homeAddress csrpos csrlin count lfCount cache0 out
    = ViewReturn lf err out1 cache1 ->
    forall (cache2 : gmap Z string) (out2 : string),
      (forall k, count <= k -> cache2 !! k = cache1 !! k) ->
      exists n,
        viewLoop slots in_ homeAddress csrpos csrlin count lfCount cache2 out2
        = ViewReturn lf err (out2 +:+ joinAll (replicate n CRLF)) cache2.
Proof.
  induction slots as [|slots IH];
    intros in_ count lfCount cache0 out lf err out1 cache1 Hc Hmax Hrun
           cache2 out2 Hsame.
  - simpl in Hrun. inversion Hrun; subst. exists 0%nat. simpl.
    now rewrite append_nil_r.
  - simpl in Hrun. simpl. destruct (Read in_) as [[bin|[|msg]|] in'].
    + destruct (cacheWrite cache0 count _ _) as [out' cache'] eqn:Hw.
      assert (Hkeep : shouldWrite cache2 count
                (LineView_Draw
                   {| Slice := bin;
                      CursorPos := if count =? csrlin then csrpos else -1 |}
                   (GoInt.mul (GoInt.add homeAddress count) 16)) = false).
      { unfold shouldWrite. rewrite (Hsame count ltac:(lia)).
        unwrap.
        assert (H0 : 0 <= count + 1) by lia.
        assert (H1 : count + 1 + Z.of_nat slots <= GoInt.max_int) by lia.
        rewrite (viewLoop_below _ _ _ _ _ _ _ _ _ _ _ _ _
                   H0 H1 Hrun count ltac:(lia)).
        change cache' with (snd (out', cache')). rewrite <- Hw.
        apply shouldWrite_after. }
      unfold cacheWrite at 1. rewrite Hkeep.
      unwrap.
      assert (H0 : 0 <= count + 1) by lia.
      assert (H1 : count + 1 + Z.of_nat slots <= GoInt.max_int) by lia.
      destruct (IH _ _ _ _ _ _ _ _ _ H0 H1 Hrun cache2
                  (if 0 <? count then out2 +:+ CRLF else out2)) as [n Hn].
      { intros k Hk. apply Hsame. lia. }
      rewrite Hn. destruct (0 <? count).
      * exists (S n). simpl. now rewrite append_assoc.
      * exists n. reflexivity.
    + inversion Hrun; subst. exists 0%nat. simpl. now rewrite append_nil_r.
    + inversion Hrun; subst. exists 0%nat. simpl. now rewrite append_nil_r.
    + discriminate.
Qed.

Lemma view_again {T : Type} `{BinIn T} (in_ : T) (csrpos csrlin w h : Z)
    (cache0 : gmap Z string) lf err out1 cache1 :
  h <= GoInt.max_int ->
  view in_ csrpos csrlin w h cache0 = ViewReturn lf err out1 cache1 ->
  exists n,
    view in_ csrpos csrlin w h cache1
    = ViewReturn lf err (joinAll (replicate n CRLF)) cache1.
Proof.
  unfold view. intros Hh Hrun.
  assert (H0 : 0 <= 0) by lia.
  assert (H1 : 0 + Z.of_nat (Z.to_nat h) <= GoInt.max_int)
    by (pose proof max_int_value; lia).
  destruct (viewLoop_again _ _ _ _ _ _ _ _ _ _ _ _ _
              H0 H1 Hrun cache1 "") as [n Hn]; [reflexivity|].
  exists n. rewrite Hn. reflexivity.
Qed.

(** C7. [draw] is a function of the address, the cursor column and the
    record, so two renders of the same row give the same text. Once a slot
    has been through the cache with that text, the next identical render
    is not written and leaves the cache as it is, also when other slots
    were written in between; so a second run of [view] with the same
    arguments writes line breaks only. On an emptied cache the first render is
    written, exactly once. The cache is emptied by ctrl-l and by a change of
    the terminal size. *)
Theorem C7_diff_cache (cache0 : gmap Z string) (count address cursorPos : Z)
    (slice : list byte) (out : string) :
  let line := draw address cursorPos slice in
  let after := snd (cacheWrite cache0 count line out) in
  shouldWrite after count line = false
  /\ (forall out', cacheWrite after count line out' = (out', after))
  /\ (forall other line' out', other <> count ->
        shouldWrite (snd (cacheWrite after other line' out')) count line = false)
  /\ shouldWrite ∅ count line = true
  /\ cacheWrite ∅ count line out = (out +:+ line, {[count := line]})
  /\ cacheWrite {[count := line]} count line out = (out, {[count := line]})
  /\ (forall (window : MemoryBin) csrpos csrlin w h,
        h <= GoInt.max_int ->
        match view window csrpos csrlin w h cache0 with
        | ViewReturn lf err _ cache1 =>
            exists n,
              view window csrpos csrlin w h cache1
              = ViewReturn lf err (joinAll (replicate n CRLF)) cache1
        | ViewPanic => True
        end)
  /\ (forall slices keys col row,
        dispatch slices _KEY_CTRL_L keys col row cache0 = Moved col row ∅ keys "")
  /\ (forall Truncate slices st w h keys,
        negb (lastWidth st =? w) || negb (lastHeight st =? h) = true ->
        frame Truncate slices (inr (w, h)) keys st
        = frame Truncate slices (inr (w, h)) keys (clearCache st)).
Proof.
  intros line after.
  assert (Hafter : shouldWrite after count line = false)
    by apply shouldWrite_after.
  assert (Hempty : shouldWrite ∅ count line = true).
  { apply shouldWrite_empty, draw_nonempty. }
  split; [exact Hafter|]. split.
  { intros out'. unfold cacheWrite. now rewrite Hafter. }
  split.
  { intros other line' out' Hne. now rewrite shouldWrite_other. }
  split; [exact Hempty|]. split.
  { unfold cacheWrite. rewrite Hempty. now rewrite insert_empty. }
  split.
  { unfold cacheWrite.
    rewrite <- (insert_empty (M := gmap Z) count line) at 1.
    now rewrite shouldWrite_insert. }
  split.
  { intros window csrpos csrlin w h Hh.
    destruct (view window csrpos csrlin w h cache0) as [lf err out1 cache1|] eqn:Hrun;
      [|exact I].
    exact (view_again window csrpos csrlin w h cache0 lf err out1 cache1 Hh Hrun). }
  split; [reflexivity|].
  intros Truncate slices st w h keys Hchanged.
  unfold frame, clearCache. cbv zeta. simpl. rewrite Hchanged. reflexivity.
Qed.

Lemma C7_diff_cache_witness :
  negb (lastWidth resizedState =? 100) || negb (lastHeight resizedState =? 24) = true
  /\ frame noTruncate [hello] (inr (100, 24)) [key "l"] resizedState
     = frame noTruncate [hello] (inr (100, 24)) [key "l"] (clearCache resizedState).
Proof.
  assert (H : negb (lastWidth resizedState =? 100)
              || negb (lastHeight resizedState =? 24) = true) by reflexivity.
  split; [exact H|].
  destruct (C7_diff_cache ∅ 0 0 0 hello "")
    as (_ & _ & _ & _ & _ & _ & _ & _ & Hresize).
  exact (Hresize noTruncate [hello] resizedState 100 24 [key "l"] H).
Defined.

(** * Further properties of the code *)

(** ** The scan of the character panel, continued *)

Lemma glyphsFrom_tiles (slice : list byte) :
  forall fuel i,
    (i <= length slice)%nat -> (length slice - i <= fuel)%nat ->
    tiles i (glyphsFrom fuel slice i) (length slice).
Proof.
  induction fuel as [|fuel IH]; intros i Hi Hfuel.
  - simpl. lia.
  - simpl. destruct (slice !! i) as [s|] eqn:Hs.
    + pose proof (lookup_lt_Some _ _ _ Hs) as Hlt.
      simpl. split; [reflexivity|]. unfold span. simpl.
      destruct (glyphLength slice i s =? 0)%nat eqn:Hz.
      * replace (i + 1)%nat with (S i) by lia. apply IH; lia.
      * apply Nat.eqb_neq in Hz.
        destruct (glyphLength_positive slice i s Hz) as (Heq & Hin & _).
        apply IH; lia.
    + apply lookup_ge_None_1 in Hs. simpl. lia.
Qed.

Lemma glyphsFrom_sound (slice : list byte) :
  forall fuel i0 i n,
    In (i, n) (glyphsFrom fuel slice i0) ->
    exists s, slice !! i = Some s /\ n = glyphLength slice i s.
Proof.
  induction fuel as [|fuel IH]; intros i0 i n Hin; [contradiction|].
  simpl in Hin. destruct (slice !! i0) as [s|] eqn:Hs; [|contradiction].
  destruct Hin as [Heq|Hin].
  - injection Heq as <- <-. eauto.
  - eapply IH. exact Hin.
Qed.

Lemma seqLength_le_4 (s : byte) : (seqLength s <= 4)%nat.
Proof.
  unfold seqLength.
  repeat match goal with |- context [if ?b then _ else _] => destruct b end; lia.
Qed.

Lemma glyphLength_le_4 (slice : list byte) (i : nat) (s : byte) :
  (glyphLength slice i s <= 4)%nat.
Proof.
  unfold glyphLength. destruct (_ <=? _)%nat; [lia|].
  pose proof (seqLength_le_4 s).
  destruct (contLoop_result slice i (seqLength s - 1) 1 (seqLength s)); lia.
Qed.

(** X1. The glyphs of the character panel tile the record: the first
    starts at byte 0, each starts where the one before ends (a placeholder
    counting for one byte), the last ends at the end of the record, and none
    is longer than 4 bytes. No byte is skipped or shown twice. *)
Theorem X1_glyphs_tile (slice : list byte) :
  tiles 0 (glyphs slice) (length slice)
  /\ Forall (fun g => (snd g <= 4)%nat) (glyphs slice).
Proof.
  split.
  - unfold glyphs. apply glyphsFrom_tiles; lia.
  - apply List.Forall_forall. intros [i n] Hin.
    destruct (glyphsFrom_sound _ _ _ _ _ Hin) as (s & _ & ->).
    apply glyphLength_le_4.
Qed.

Lemma tiles_last (gs : list (nat * nat)) :
  forall start stop,
    gs <> [] -> tiles start gs stop ->
    exists front g, gs = (front ++ [g])%list /\ (fst g + span g)%nat = stop.
Proof.
  induction gs as [|g gs IH]; intros start stop Hne Ht; [contradiction|].
  destruct Ht as [Hg Hrest]. destruct gs as [|g' gs'].
  - simpl in Hrest. exists [], g. split; [reflexivity | lia].
  - destruct (IH _ _ ltac:(discriminate) Hrest) as (front & gl & Heq & Hend).
    exists (g :: front), gl. split; [now rewrite Heq | exact Hend].
Qed.

Lemma joinAll_app (a b : list string) : joinAll (a ++ b) = joinAll a +:+ joinAll b.
Proof.
  induction a as [|x a IH]; [reflexivity|].
  simpl. now rewrite IH, append_assoc.
Qed.

(** X2. In every record that is not empty, the last byte is shown as a
    placeholder, whatever its value: the last glyph is [(len - 1, 0)] and
    the character panel ends with the attribute and a dot. (Line 69 rejects
    every sequence that reaches the end of the record.) *)
Theorem X2_last_byte_is_placeholder (cursorPos : Z) (slice : list byte) :
  slice <> [] ->
  last (glyphs slice) = Some ((length slice - 1)%nat, 0%nat)
  /\ exists before,
       drawChars cursorPos slice
       = before
         +:+ (if Z.of_nat (length slice - 1) =? cursorPos
              then CURSOR_COLOR else CELL1_COLOR)
         +:+ ".".
Proof.
  intros Hne.
  assert (Hgs : glyphs slice <> []).
  { unfold glyphs. destruct slice as [|s rest]; [contradiction|]. discriminate. }
  destruct (tiles_last _ _ _ Hgs (glyphsFrom_tiles slice (length slice) 0 ltac:(lia) ltac:(lia)))
    as (front & [i n] & Heq & Hend).
  assert (Hin : In (i, n) (glyphs slice)).
  { rewrite Heq. apply in_or_app. right. now left. }
  destruct (glyphsFrom_sound _ _ _ _ _ Hin) as (s & Hs & Hn).
  assert (Hz : n = 0%nat).
  { destruct (Nat.eq_dec n 0%nat) as [|Hpos]; [assumption|]. exfalso.
    rewrite Hn in Hpos.
    destruct (glyphLength_positive slice i s Hpos) as (Hlen & Hlt & _).
    unfold span in Hend. simpl in Hend. rewrite Hn in Hend.
    destruct (glyphLength slice i s =? 0)%nat eqn:Hq;
      [apply Nat.eqb_eq in Hq; lia | idtac].
    lia. }
  rewrite Hz in Hend, Heq. unfold span in Hend. simpl in Hend.
  assert (Hi : i = (length slice - 1)%nat) by lia. subst i.
  split.
  - rewrite Heq. apply last_snoc.
  - exists (joinAll (map (emitGlyph cursorPos slice) front)).
    unfold drawChars. rewrite Heq, map_app, joinAll_app. simpl.
    now rewrite append_nil_r.
Qed.

Lemma X2_last_byte_is_placeholder_witness :
  hello <> []
  /\ last (glyphs hello) = Some (10%nat, 0%nat)
  /\ exists before,
       drawChars 0 hello
       = before
         +:+ (if Z.of_nat (length hello - 1) =? 0 then CURSOR_COLOR else CELL1_COLOR)
         +:+ ".".
Proof.
  assert (H : hello <> []) by discriminate.
  split; [exact H|]. exact (X2_last_byte_is_placeholder 0 hello H).
Defined.

Lemma seqLength_one (s : byte) : 0x20 <= byteZ s <= 0x7E -> seqLength s = 1%nat.
Proof.
  intros H. unfold seqLength.
  destruct (Z.leb_spec 0x20 (byteZ s)); [|lia].
  destruct (Z.leb_spec (byteZ s) 0x7E); [|lia].
  reflexivity.
Qed.

Lemma low_not_continuation (s : byte) : byteZ s < 0x80 -> isContinuation s = false.
Proof.
  intros H. unfold isContinuation.
  destruct (Z.leb_spec 0x80 (byteZ s)); [lia | reflexivity].
Qed.

(** X3. A printable ASCII byte (0x20..0x7E) that is not the last byte of
    its record is a glyph of its own, written verbatim, under the cursor
    attribute exactly when the cursor is on its column. *)
Theorem X3_printable_byte_verbatim (cursorPos : Z) (slice : list byte)
    (i : nat) (s : byte) :
  slice !! i = Some s -> 0x20 <= byteZ s <= 0x7E -> (S i < length slice)%nat ->
  In (i, 1%nat) (glyphs slice)
  /\ emitGlyph cursorPos slice (i, 1%nat)
     = (if Z.of_nat i =? cursorPos then CURSOR_COLOR else CELL1_COLOR)
       +:+ String (ascii_of_byte s) "".
Proof.
  intros Hs Hrange Hlt.
  assert (Hlen : glyphLength slice i s = 1%nat).
  { unfold glyphLength. rewrite (seqLength_one s Hrange).
    destruct (Nat.leb_spec (length slice) (i + 1)); [lia | reflexivity]. }
  split.
  - rewrite <- Hlen. apply glyphs_reach; [exact Hs|].
    apply low_not_continuation. lia.
  - unfold emitGlyph. rewrite (drop_S _ _ _ Hs). simpl take.
    replace ((Z.of_nat i <=? cursorPos) && (cursorPos <? Z.of_nat (i + 1)))
      with (Z.of_nat i =? cursorPos); [reflexivity|].
    destruct (Z.eqb_spec (Z.of_nat i) cursorPos);
      destruct (Z.leb_spec (Z.of_nat i) cursorPos);
      destruct (Z.ltb_spec cursorPos (Z.of_nat (i + 1))); simpl; try reflexivity; lia.
Qed.

Lemma X3_printable_byte_verbatim_witness :
  (hello !! 4%nat = Some x6f /\ 0x20 <= byteZ x6f <= 0x7E /\ (5 < length hello)%nat)
  /\ In (4%nat, 1%nat) (glyphs hello)
  /\ emitGlyph 4 hello (4%nat, 1%nat) = CURSOR_COLOR +:+ "o".
Proof.
  assert (H1 : hello !! 4%nat = Some x6f) by reflexivity.
  assert (H2 : 0x20 <= byteZ x6f <= 0x7E) by (vm_compute; split; discriminate).
  assert (H3 : (5 < length hello)%nat) by (vm_compute; lia).
  split; [split; [exact H1 | split; [exact H2 | exact H3]]|].
  exact (X3_printable_byte_verbatim 4 hello 4 x6f H1 H2 H3).
Defined.

(** ** The cursor and the rendered line *)

Lemma hexLoop_no_cursor (c1 c2 : Z) (slice : list byte) :
  forall i,
    (c1 < Z.of_nat i \/ Z.of_nat i + len slice <= c1) ->
    (c2 < Z.of_nat i \/ Z.of_nat i + len slice <= c2) ->
    hexLoop c1 i slice = hexLoop c2 i slice.
Proof.
  unfold len. induction slice as [|s rest IH]; intros i H1 H2; [reflexivity|].
  simpl length in *. simpl hexLoop.
  destruct (Z.eqb_spec (Z.of_nat i) c1); [lia|].
  destruct (Z.eqb_spec (Z.of_nat i) c2); [lia|].
  rewrite (IH (S i)) by lia. reflexivity.
Qed.

Lemma emitGlyph_no_cursor (c1 c2 : Z) (slice : list byte) (g : nat * nat) :
  In g (glyphs slice) ->
  (c1 < 0 \/ len slice <= c1) -> (c2 < 0 \/ len slice <= c2) ->
  emitGlyph c1 slice g = emitGlyph c2 slice g.
Proof.
  intros Hin H1 H2. destruct g as [i n].
  destruct (glyphsFrom_sound _ _ _ _ _ Hin) as (s & Hs & Hn).
  pose proof (lookup_lt_Some _ _ _ Hs) as Hlt. unfold len in *.
  unfold emitGlyph. destruct (n =? 0)%nat eqn:Hz.
  - destruct (Z.eqb_spec (Z.of_nat i) c1); [lia|].
    destruct (Z.eqb_spec (Z.of_nat i) c2); [lia|]. reflexivity.
  - apply Nat.eqb_neq in Hz. rewrite Hn in Hz.
    destruct (glyphLength_positive slice i s Hz) as (Hlen & Hin' & _).
    rewrite <- Hlen, <- Hn in Hin'.
    assert (Hf : forall c, (c < 0 \/ Z.of_nat (length slice) <= c) ->
                 (Z.of_nat i <=? c) && (c <? Z.of_nat (i + n)) = false).
    { intros c Hc. destruct (Z.leb_spec (Z.of_nat i) c); [|reflexivity].
      destruct (Z.ltb_spec c (Z.of_nat (i + n))); [lia | reflexivity]. }
    now rewrite (Hf c1 H1), (Hf c2 H2).
Qed.

(** X5. A cursor column outside the record highlights nothing: for every
    cursor position that is negative or at least the length of the record,
    the line is the one drawn with cursor -1. *)
Theorem X5_cursor_outside_record (address cursorPos : Z) (slice : list byte) :
  cursorPos < 0 \/ len slice <= cursorPos ->
  draw address cursorPos slice = draw address (-1) slice.
Proof.
  intros Hout.
  assert (Hm : -1 < 0 \/ len slice <= -1) by (left; lia).
  unfold draw, drawHex, drawChars.
  rewrite (hexLoop_no_cursor cursorPos (-1) slice 0) by (simpl; lia).
  f_equal. f_equal. f_equal. f_equal.
  apply map_ext_in. intros g Hg. now apply emitGlyph_no_cursor.
Qed.

Lemma X5_cursor_outside_record_witness :
  (11 < 0 \/ len hello <= 11)
  /\ draw 0 11 hello = draw 0 (-1) hello.
Proof.
  assert (H : 11 < 0 \/ len hello <= 11) by (right; vm_compute; discriminate).
  split; [exact H|]. exact (X5_cursor_outside_record 0 11 hello H).
Defined.

Lemma byte_not_ESC (b : byte) :
  0x20 <= byteZ b -> Ascii.eqb (ascii_of_byte b) ESC = false.
Proof.
  destruct b; intros H; first [reflexivity | exfalso; apply H; reflexivity].
Qed.

Lemma plain_bytes (l : list byte) :
  Forall (fun b => 0x20 <= byteZ b) l -> plain (string_of_list_byte l).
Proof.
  unfold plain. induction l as [|b l IH]; intros H; [constructor|].
  inversion H; subst. simpl. constructor; [now apply byte_not_ESC | now apply IH].
Qed.

Lemma seqLength_positive (s : byte) : seqLength s <> 0%nat -> 0x20 <= byteZ s.
Proof.
  unfold seqLength. intros H.
  destruct (Z.leb_spec 0x20 (byteZ s)); [assumption|]. simpl in H.
  destruct (Z.leb_spec 0xC2 (byteZ s)); [lia|]. simpl in H.
  destruct (Z.leb_spec 0xE0 (byteZ s)); [lia|]. simpl in H.
  destruct (Z.leb_spec 0xF0 (byteZ s)); [lia|]. simpl in H. contradiction.
Qed.

(** The bytes of a glyph of positive length: a lead byte of 0x20 or more
    and continuation bytes; the escape character is not among them. *)
Lemma glyph_bytes_plain (slice : list byte) (i : nat) (s : byte) :
  slice !! i = Some s -> glyphLength slice i s <> 0%nat ->
  plain (string_of_list_byte (take (glyphLength slice i s) (drop i slice))).
Proof.
  intros Hs Hpos.
  destruct (glyphLength_positive slice i s Hpos) as (Hlen & Hin & Hcont).
  apply plain_bytes, Forall_lookup_2. intros k b Hk.
  apply lookup_take_Some in Hk as [Hk Hlt]. rewrite lookup_drop in Hk.
  destruct k as [|k].
  - rewrite Nat.add_0_r, Hs in Hk. injection Hk as <-.
    apply seqLength_positive. congruence.
  - specialize (Hcont (S k) ltac:(lia)). unfold byteAt in Hcont.
    rewrite Hk in Hcont. simpl in Hcont. unfold isContinuation in Hcont.
    apply andb_prop in Hcont as [Hlo _]. apply Z.leb_le in Hlo. lia.
Qed.

Lemma visible_emitGlyph (cursorPos : Z) (slice : list byte) (g : nat * nat) (t : string) :
  In g (glyphs slice) ->
  visibleFrom Text (emitGlyph cursorPos slice g +:+ t)
  = glyphText slice g +:+ visibleFrom Text t.
Proof.
  intros Hin. destruct g as [i n].
  destruct (glyphsFrom_sound _ _ _ _ _ Hin) as (s & Hs & Hn).
  unfold emitGlyph, glyphText. simpl fst. simpl snd.
  destruct (n =? 0)%nat eqn:Hz.
  - rewrite append_assoc.
    destruct (Z.of_nat i =? cursorPos); reflexivity.
  - apply Nat.eqb_neq in Hz.
    assert (Hplain : plain (string_of_list_byte (take n (drop i slice))
                            +:+ (if (n =? 3)%nat then " "
                                 else if (n =? 4)%nat then "  " else ""))).
    { apply plain_app.
      - rewrite Hn. apply glyph_bytes_plain; [exact Hs | congruence].
      - destruct (n =? 3)%nat; [repeat constructor|].
        destruct (n =? 4)%nat; repeat constructor. }
    rewrite append_assoc.
    destruct ((Z.of_nat i <=? cursorPos) && (cursorPos <? Z.of_nat (i + n)));
      [rewrite visible_CURSOR | rewrite visible_CELL1];
      now rewrite visible_plain.
Qed.

Lemma visible_glyphs (cursorPos : Z) (slice : list byte) (t : string) :
  forall gs,
    (forall g, In g gs -> In g (glyphs slice)) ->
    visibleFrom Text (joinAll (map (emitGlyph cursorPos slice) gs) +:+ t)
    = joinAll (map (glyphText slice) gs) +:+ visibleFrom Text t.
Proof.
  induction gs as [|g gs IH]; intros Hsub; [reflexivity|].
  simpl map. simpl joinAll. rewrite !append_assoc.
  rewrite visible_emitGlyph by (apply Hsub; now left).
  rewrite IH by (intros g' Hg'; apply Hsub; now right). reflexivity.
Qed.

Lemma visible_drawHex_then (cursorPos : Z) (slice : list byte) (t : string) :
  visibleFrom Text (drawHex cursorPos slice +:+ t)
  = visibleText (drawHex cursorPos slice) +:+ visibleFrom Text t.
Proof.
  rewrite visible_drawHex. unfold drawHex.
  assert (Hpad : forall n u,
            visibleFrom Text (padLoop n +:+ u) = padLoop n +:+ visibleFrom Text u)
    by (intros; apply visible_plain, plain_padLoop).
  destruct slice as [|s rest].
  - change (hexLoop cursorPos 0 []) with "".
    rewrite append_nil_l, !append_assoc, visible_reset_space, Hpad. reflexivity.
  - simpl hexLoop. rewrite append_nil_l, !append_assoc.
    assert (Hc : forall u,
      visibleFrom Text
        ((if Z.of_nat 0 =? cursorPos then CURSOR_COLOR
          else if Z.land (Z.shiftr (Z.of_nat 0) 2) 1 =? 0 then CELL1_COLOR
               else CELL2_COLOR) +:+ u) = visibleFrom Text u).
    { intros u. destruct (Z.of_nat 0 =? cursorPos); [reflexivity|].
      destruct (Z.land _ _ =? 0); reflexivity. }
    rewrite Hc, visible_plain by apply plain_fmt_X.
    rewrite visible_hexLoop_tail by lia. rewrite Hpad.
    simpl map. simpl joinAll. fold (hex2 s). rewrite !append_assoc. reflexivity.
Qed.

(** X4. The cursor changes attributes only. With the control sequences
    taken out, a rendered line is the address field, the hexadecimal panel
    and the text of the glyphs, whatever the cursor column: two renders of
    a record at the same address show the same text. *)
Theorem X4_cursor_changes_attributes_only (address : Z) (slice : list byte) :
  forall c1 c2 : Z,
    visibleText (draw address c1 slice)
    = drawAddress address
      +:+ visibleText (drawHex (-1) slice)
      +:+ joinAll (map (glyphText slice) (glyphs slice))
    /\ visibleText (draw address c1 slice) = visibleText (draw address c2 slice).
Proof.
  assert (H : forall c,
    visibleText (draw address c slice)
    = drawAddress address
      +:+ visibleText (drawHex (-1) slice)
      +:+ joinAll (map (glyphText slice) (glyphs slice))).
  { intros c. unfold draw. rewrite visible_address_then.
    unfold visibleText at 1. rewrite visible_drawHex_then.
    unfold drawChars. rewrite visible_glyphs by auto.
    rewrite !visible_drawHex.
    change (visibleFrom Text ERASE_LINE) with "". now rewrite append_nil_r. }
  intros c1 c2. split; [apply H | now rewrite !H].
Qed.

(** ** What [view] draws *)

Lemma shouldWrite_ext (c1 c2 : gmap Z string) (n : Z) (line : string) :
  c1 !! n = c2 !! n -> shouldWrite c1 n line = shouldWrite c2 n line.
Proof. unfold shouldWrite. now intros ->. Qed.

Lemma paint_ext (home csrpos csrlin : Z) (rows : list (list byte)) :
  forall (c1 c2 : gmap Z string) (n : Z),
    (forall z, n <= z -> c1 !! z = c2 !! z) ->
    paint c1 home csrpos csrlin n rows = paint c2 home csrpos csrlin n rows.
Proof.
  induction rows as [|r rest IH]; intros c1 c2 n Hsame; [reflexivity|].
  simpl. rewrite (shouldWrite_ext c1 c2) by (apply Hsame; lia).
  rewrite (IH c1 c2 (n + 1)) by (intros z Hz; apply Hsame; lia). reflexivity.
Qed.

Lemma cacheWrite_snd_out (cache0 : gmap Z string) (n : Z) (line out1 out2 : string) :
  snd (cacheWrite cache0 n line out1) = snd (cacheWrite cache0 n line out2).
Proof. unfold cacheWrite. now destruct (shouldWrite cache0 n line). Qed.

Lemma repaint_outside (home csrpos csrlin : Z) (rows : list (list byte)) :
  forall (cache0 : gmap Z string) (n z : Z),
    z < n \/ n + len rows <= z ->
    repaint cache0 home csrpos csrlin n rows !! z = cache0 !! z.
Proof.
  unfold len. induction rows as [|r rest IH]; intros cache0 n z Hz; [reflexivity|].
  simpl length in Hz. simpl. rewrite IH by lia.
  apply cacheWrite_other. lia.
Qed.

Lemma cacheWrite_slot (cache0 : gmap Z string) (n : Z) (line out : string) :
  line <> "" -> snd (cacheWrite cache0 n line out) !! n = Some line.
Proof.
  intros Hne. unfold cacheWrite.
  destruct (shouldWrite cache0 n line) eqn:Hw; simpl.
  - apply lookup_insert_eq.
  - unfold shouldWrite in Hw. apply negb_false_iff, String.eqb_eq in Hw.
    destruct (cache0 !! n) as [x|]; simpl in Hw; [now subst | congruence].
Qed.

Lemma repaint_slot (home csrpos csrlin : Z) (rows : list (list byte)) :
  forall (cache0 : gmap Z string) (n : Z) (j : nat) (r : list byte),
    rows !! j = Some r ->
    repaint cache0 home csrpos csrlin n rows !! (n + Z.of_nat j)
    = Some (rowLine home csrpos csrlin (n + Z.of_nat j) r).
Proof.
  induction rows as [|r0 rest IH]; intros cache0 n j r Hj; [discriminate|].
  simpl. destruct j as [|j].
  - injection Hj as <-. rewrite Z.add_0_r, repaint_outside by lia.
    apply cacheWrite_slot, draw_nonempty.
  - simpl in Hj.
    replace (n + Z.of_nat (S j)) with (n + 1 + Z.of_nat j) by lia.
    now apply IH.
Qed.

(** [view] on the rows of a [MemoryBin], slot by slot. *)
Lemma viewLoop_rows (data : list (list byte)) (home csrpos csrlin : Z) :
  0 <= home -> len data * 16 <= GoInt.max_int ->
  forall (slots : nat) (count lfCount : Z) (cache0 : gmap Z string) (out : string),
    0 <= count -> count + Z.of_nat slots <= GoInt.max_int ->
    lfCount = Z.max 0 (count - 1) ->
    let shown := take slots (drop (Z.to_nat (home + count)) data) in
    viewLoop slots {| Data := data; StartY := home + count |}
             home csrpos csrlin count lfCount cache0 out
    = ViewReturn (Z.max 0 (count + len shown - 1)) None
                 (out +:+ paint cache0 home csrpos csrlin count shown)
                 (repaint cache0 home csrpos csrlin count shown).
Proof.
  intros Hhome Hdata.
  induction slots as [|slots IH]; intros count lfCount cache0 out Hc Hmax Hlf.
  - simpl. rewrite append_nil_r. subst lfCount. f_equal. unfold len. simpl. lia.
  - cbv zeta. simpl viewLoop. unfold MemoryBin_Read. simpl Data. simpl StartY.
    destruct (Z.leb_spec (len data) (home + count)) as [Hend|Hin].
    + rewrite drop_ge by (unfold len in Hend; lia). rewrite take_nil. simpl.
      rewrite append_nil_r. subst lfCount. f_equal. unfold len. simpl. lia.
    + destruct (index_in_range data (home + count) ltac:(lia)) as [bin Hbin].
      rewrite Hbin. unfold index in Hbin.
      destruct (Z.ltb_spec (home + count) 0); [lia|].
      rewrite (drop_S _ _ _ Hbin). rewrite firstn_cons.
      unfold LineView_Draw. simpl Slice. simpl CursorPos.
      assert (Hlen : 0 <= len data) by apply len_nonneg.
      unwrap. fold (rowLine home csrpos csrlin count bin).
      replace (home + count + 1) with (home + (count + 1)) by lia.
      replace (S (Z.to_nat (home + count))) with (Z.to_nat (home + (count + 1))) by lia.
      destruct (cacheWrite cache0 count (rowLine home csrpos csrlin count bin)
                  (if 0 <? count then out +:+ CRLF else out)) as [out2 cache'] eqn:Hw.
      rewrite (IH (count + 1)) by (destruct (Z.ltb_spec 0 count); lia).
      assert (Hcache : cache'
                = snd (cacheWrite cache0 count (rowLine home csrpos csrlin count bin) ""))
        by (rewrite (cacheWrite_snd_out _ _ _ "" (if 0 <? count then out +:+ CRLF else out)),
              Hw; reflexivity).
      cbn [paint repaint]. rewrite <- Hcache.
      rewrite (paint_ext _ _ _ _ cache' cache0 (count + 1))
        by (intros z Hz; rewrite Hcache; apply cacheWrite_other; lia).
      f_equal.
      * unfold len. simpl length. lia.
      * unfold cacheWrite in Hw.
        destruct (shouldWrite cache0 count (rowLine home csrpos csrlin count bin));
          injection Hw as <- _; destruct (0 <? count);
          rewrite ?append_assoc, ?append_nil_l; reflexivity.
Qed.

(** X6. [view] on a window of the dataset draws the rows that fit: the
    first [h] records from the start row on, or fewer at the end of the
    data. It neither fails nor panics, returns the number of line breaks
    written (one less than the number of rows, 0 for none), leaves in the
    cache, for every slot drawn, the text of its row (record startRow + k
    at address (startRow + k) * 16, the cursor on the cursor line only), and
    leaves every other slot of the cache as it was. *)
Theorem X6_view_cache_mirrors_rows (data : list (list byte))
    (startY csrpos csrlin w h : Z) (cache0 : gmap Z string) :
  0 <= startY -> len data * 16 <= GoInt.max_int -> h <= GoInt.max_int ->
  let shown := take (Z.to_nat h) (drop (Z.to_nat startY) data) in
  exists out cache',
    view {| Data := data; StartY := startY |} csrpos csrlin w h cache0
    = ViewReturn (Z.max 0 (len shown - 1)) None out cache'
    /\ (forall (k : nat) (r : list byte),
          shown !! k = Some r ->
          cache' !! Z.of_nat k = Some (rowLine startY csrpos csrlin (Z.of_nat k) r))
    /\ (forall z, z < 0 \/ len shown <= z -> cache' !! z = cache0 !! z).
Proof.
  intros Hstart Hdata Hh shown. unfold view. simpl HomeAddress.
  pose proof (viewLoop_rows data startY csrpos csrlin Hstart Hdata
                (Z.to_nat h) 0 0 cache0 "" ltac:(lia)
                ltac:(pose proof max_int_value; lia) ltac:(lia)) as Hrun.
  cbv zeta in Hrun. rewrite Z.add_0_r in Hrun. fold shown in Hrun.
  eexists _, _. split; [exact Hrun|]. split.
  - intros k r Hk.
    exact (repaint_slot startY csrpos csrlin shown cache0 0 k r Hk).
  - intros z Hz. apply repaint_outside. lia.
Qed.

Lemma X6_view_cache_mirrors_rows_witness :
  (0 <= 1 /\ len [hello; hello; hello] * 16 <= GoInt.max_int /\ 5 <= GoInt.max_int)
  /\ exists out cache',
       view {| Data := [hello; hello; hello]; StartY := 1 |} 0 0 79 5 ∅
       = ViewReturn (Z.max 0 (len (take (Z.to_nat 5) (drop (Z.to_nat 1) [hello; hello; hello])) - 1))
                    None out cache'
       /\ (forall (k : nat) (r : list byte),
             take (Z.to_nat 5) (drop (Z.to_nat 1) [hello; hello; hello]) !! k = Some r ->
             cache' !! Z.of_nat k = Some (rowLine 1 0 0 (Z.of_nat k) r))
       /\ (forall z,
             z < 0 \/ len (take (Z.to_nat 5) (drop (Z.to_nat 1) [hello; hello; hello])) <= z ->
             cache' !! z = (∅ : gmap Z string) !! z).
Proof.
  assert (H1 : 0 <= 1) by lia.
  assert (H2 : len [hello; hello; hello] * 16 <= GoInt.max_int) by (vm_compute; discriminate).
  assert (H3 : 5 <= GoInt.max_int) by (vm_compute; discriminate).
  split; [split; [exact H1 | split; [exact H2 | exact H3]]|].
  exact (X6_view_cache_mirrors_rows [hello; hello; hello] 1 0 0 79 5 ∅ H1 H2 H3).
Defined.

(** X7. [view] writes a row exactly when its text differs from what the
    cache held for its slot when [view] was called (an absent entry counting
    as the empty text), and a line break before every row but the first;
    nothing else. *)
Theorem X7_view_writes_changed_rows (data : list (list byte))
    (startY csrpos csrlin w h : Z) (cache0 : gmap Z string) :
  0 <= startY -> len data * 16 <= GoInt.max_int -> h <= GoInt.max_int ->
  exists lf cache',
    view {| Data := data; StartY := startY |} csrpos csrlin w h cache0
    = ViewReturn lf None
        (paint cache0 startY csrpos csrlin 0
               (take (Z.to_nat h) (drop (Z.to_nat startY) data)))
        cache'.
Proof.
  intros Hstart Hdata Hh. unfold view. simpl HomeAddress.
  pose proof (viewLoop_rows data startY csrpos csrlin Hstart Hdata
                (Z.to_nat h) 0 0 cache0 "" ltac:(lia)
                ltac:(pose proof max_int_value; lia) ltac:(lia)) as Hrun.
  cbv zeta in Hrun. rewrite Z.add_0_r, append_nil_l in Hrun.
  eexists _, _. exact Hrun.
Qed.

Lemma X7_view_writes_changed_rows_witness :
  (0 <= 0 /\ len [hello; hello] * 16 <= GoInt.max_int /\ 23 <= GoInt.max_int)
  /\ exists lf cache',
       view {| Data := [hello; hello]; StartY := 0 |} 0 0 79 23
            {[ 0 := rowLine 0 0 0 0 hello ]}
       = ViewReturn lf None
           (paint {[ 0 := rowLine 0 0 0 0 hello ]} 0 0 0 0
                  (take (Z.to_nat 23) (drop (Z.to_nat 0) [hello; hello])))
           cache'.
Proof.
  assert (H1 : 0 <= 0) by lia.
  assert (H2 : len [hello; hello] * 16 <= GoInt.max_int) by (vm_compute; discriminate).
  assert (H3 : 23 <= GoInt.max_int) by (vm_compute; discriminate).
  split; [split; [exact H1 | split; [exact H2 | exact H3]]|].
  exact (X7_view_writes_changed_rows [hello; hello] 0 0 0 79 23
           {[ 0 := rowLine 0 0 0 0 hello ]} H1 H2 H3).
Defined.

(** ** The loader *)

Lemma load_consumed (reads : list ReadAnswer) :
  forall acc, load reads acc = load (consumed reads) acc.
Proof.
  induction reads as [|[chunk [e|]] rest IH]; intros acc; [reflexivity| |].
  - simpl. destruct (16 <? len chunk); [reflexivity|]. now destruct e.
  - simpl. destruct (16 <? len chunk); [reflexivity|]. apply IH.
Qed.

Lemma load_Loaded (reads : list ReadAnswer) :
  forall acc out,
    load reads acc = Loaded out ->
    out = (acc ++ List.filter (fun c => 0 <? len c) (map fst (consumed reads)))%list.
Proof.
  induction reads as [|[chunk [e|]] rest IH]; intros acc out H.
  - simpl in H. injection H as <-. simpl. now rewrite app_nil_r.
  - simpl in H. destruct (16 <? len chunk); [discriminate|].
    destruct e; [|discriminate]. injection H as <-. simpl.
    destruct (0 <? len chunk); [reflexivity | now rewrite app_nil_r].
  - simpl in H. destruct (16 <? len chunk); [discriminate|].
    apply IH in H. simpl. rewrite H.
    destruct (0 <? len chunk); [now rewrite <- app_assoc | reflexivity].
Qed.

Lemma concat_filter_nonempty (l : list (list byte)) :
  List.concat (List.filter (fun c => 0 <? len c) l) = List.concat l.
Proof.
  induction l as [|c l IH]; [reflexivity|]. simpl.
  destruct (Z.ltb_spec 0 (len c)) as [|Hz]; simpl; [now rewrite IH|].
  destruct c; [exact IH | unfold len in Hz; simpl in Hz; lia].
Qed.

(** X8. The dataset holds exactly the bytes the reader delivered, in the
    order of the reads: its records are the chunks of the reads performed
    (up to and including the one that reported end of stream), the empty
    ones left out. No byte is lost, repeated or moved. *)
Theorem X8_load_keeps_bytes (reads : list ReadAnswer) (slices : list (list byte)) :
  load reads [] = Loaded slices ->
  slices = List.filter (fun c => 0 <? len c) (map fst (consumed reads))
  /\ List.concat slices = List.concat (map fst (consumed reads)).
Proof.
  intros H. apply load_Loaded in H. simpl in H. subst slices.
  split; [reflexivity | apply concat_filter_nonempty].
Qed.

Lemma X8_load_keeps_bytes_witness :
  load [(hello, None); ([], None); ([x21], Some EOF); (hello, None)] []
  = Loaded [hello; [x21]]
  /\ [hello; [x21]]
     = List.filter (fun c => 0 <? len c)
         (map fst (consumed [(hello, None); ([], None); ([x21], Some EOF); (hello, None)]))
  /\ List.concat [hello; [x21]]
     = List.concat
         (map fst (consumed [(hello, None); ([], None); ([x21], Some EOF); (hello, None)])).
Proof.
  assert (H : load [(hello, None); ([], None); ([x21], Some EOF); (hello, None)] []
              = Loaded [hello; [x21]]) by reflexivity.
  split; [exact H|]. exact (X8_load_keeps_bytes _ _ H).
Defined.

(** X9. Loading stops at the first read that reports an error, and no
    read is made after it. If that error is not end of stream, loading
    fails with it, whatever was read before; otherwise (end of stream, with
    or without bytes in the same read) loading succeeds. *)
Theorem X9_load_stops_at_first_error (reads : list ReadAnswer) :
  Forall (fun r => len (fst r) <= 16) (consumed reads) ->
  load reads [] = load (consumed reads) []
  /\ match last (consumed reads) with
     | Some (_, Some (Failure msg)) => load reads [] = LoadError (Failure msg)
     | _ => exists slices, load reads [] = Loaded slices
     end.
Proof.
  intros Hfit. split; [apply load_consumed|].
  generalize (@nil (list byte)) as acc.
  induction reads as [|[chunk [e|]] rest IH]; intros acc.
  - simpl. eauto.
  - simpl in *. inversion Hfit as [|? ? Hc _]; subst. simpl in Hc.
    destruct (Z.ltb_spec 16 (len chunk)); [lia|].
    destruct e; simpl; eauto.
  - simpl in Hfit. inversion Hfit as [|? ? Hc Hrest]; subst. simpl in Hc.
    simpl load. destruct (Z.ltb_spec 16 (len chunk)); [lia|].
    specialize (IH Hrest (if 0 <? len chunk then (acc ++ [chunk])%list else acc)).
    simpl consumed.
    destruct (consumed rest) as [|r0 rs] eqn:Hcons; [exact IH|].
    change (last ((chunk, None) :: r0 :: rs)) with (last (r0 :: rs)). exact IH.
Qed.

Lemma X9_load_stops_at_first_error_witness :
  Forall (fun r => len (fst r) <= 16)
         (consumed [(hello, None); ([x21], Some (Failure "disk")); (hello, Some EOF)])
  /\ load [(hello, None); ([x21], Some (Failure "disk")); (hello, Some EOF)] []
     = LoadError (Failure "disk").
Proof.
  assert (H : Forall (fun r => len (fst r) <= 16)
                (consumed [(hello, None); ([x21], Some (Failure "disk")); (hello, Some EOF)]))
    by (repeat constructor; vm_compute; discriminate).
  split; [exact H|].
  exact (proj2 (X9_load_stops_at_first_error _ H)).
Defined.

(** ** [main1] as a whole *)

Lemma load_all_empty (reads : list ReadAnswer) :
  Forall (fun r => fst r = [] /\ (snd r = None \/ snd r = Some EOF)) reads ->
  forall acc, load reads acc = Loaded acc.
Proof.
  induction reads as [|[chunk e] rest IH]; intros H acc; [reflexivity|].
  inversion H as [|? ? [Hc He] Hrest]; subst. simpl in Hc, He. subst chunk.
  simpl. destruct He as [->| ->]; [now apply IH | reflexivity].
Qed.

(** X10. An input without a single byte is fatal: when every read delivers
    0 bytes, with end of stream or without, [main1] returns [io.EOF]. It
    has then written nothing but the cursor-off and cursor-on sequences, and
    the terminal is not consulted (the outcome does not depend on it). *)
Theorem X10_empty_input_is_EOF (Truncate : string -> Z -> string -> string)
    (reads : list ReadAnswer) (ttyOpen : error + Tty) :
  Forall (fun r => fst r = [] /\ (snd r = None \/ snd r = Some EOF)) reads ->
  main1 Truncate (inr reads) ttyOpen
  = Finished (Some EOF) (_ANSI_CURSOR_OFF +:+ _ANSI_CURSOR_ON).
Proof.
  intros H. unfold main1. now rewrite (load_all_empty reads H []).
Qed.

Lemma X10_empty_input_is_EOF_witness :
  Forall (fun r : ReadAnswer => fst r = [] /\ (snd r = None \/ snd r = Some EOF))
         [([], None); ([], Some EOF)]
  /\ main1 noTruncate (inr [([], None); ([], Some EOF)])
           (inr {| sizes := [sizeOk 80 24]; keys := [key "q"; key "y"] |})
     = Finished (Some EOF) (_ANSI_CURSOR_OFF +:+ _ANSI_CURSOR_ON).
Proof.
  assert (H : Forall (fun r : ReadAnswer =>
                        fst r = [] /\ (snd r = None \/ snd r = Some EOF))
                [([], None); ([], Some EOF)]).
  { constructor; [split; [reflexivity | now left]|].
    constructor; [split; [reflexivity | now right]|]. constructor. }
  split; [exact H|].
  exact (X10_empty_input_is_EOF noTruncate _ _ H).
Defined.

Lemma mainLoop_output (Truncate : string -> Z -> string -> string)
    (slices : list (list byte)) :
  forall (answers : list SizeAnswer) (pressed : list KeyAnswer) (st : State)
         (out : string) err out',
    mainLoop Truncate slices answers pressed st out = Finished err out' ->
    exists mid, out' = out +:+ mid.
Proof.
  intros answers. induction answers as [|size answers IH];
    intros pressed st out err out' H; [discriminate|].
  cbn [mainLoop] in H.
  destruct (frame Truncate slices size pressed st) as [st' keys' o|e o| |];
    try discriminate.
  - apply IH in H as [mid ->]. exists (o +:+ mid). now rewrite append_assoc.
  - injection H as _ <-. eauto.
Qed.

(** X11. The cursor is hidden first and shown again last: whenever [main1]
    returns, with an error or without, what it has written starts with the
    cursor-off sequence and ends with the cursor-on sequence. *)
Theorem X11_cursor_restored (Truncate : string -> Z -> string -> string)
    (argf : error + list ReadAnswer) (ttyOpen : error + Tty) :
  match main1 Truncate argf ttyOpen with
  | Finished _ out =>
      exists mid, out = _ANSI_CURSOR_OFF +:+ mid +:+ _ANSI_CURSOR_ON
  | _ => True
  end.
Proof.
  unfold main1. destruct argf as [e|reads]; [exists ""; reflexivity|].
  destruct (load reads []) as [slices|e|]; [|exists ""; reflexivity|exact I].
  destruct (len slices <=? 0); [exists ""; reflexivity|].
  destruct ttyOpen as [e|tty1]; [exists ""; reflexivity|].
  destruct (mainLoop _ _ _ _ _ _) as [err out| |] eqn:Hrun; try exact I.
  apply mainLoop_output in Hrun as [mid ->].
  exists mid. now rewrite append_assoc.
Qed.

(** The only way out of the switch without error: "y" after "q" or escape. *)
Lemma dispatch_Quit_inv (slices : list (list byte)) (ch : string)
    (pressed : list KeyAnswer) (col row : Z) (cache0 : gmap Z string) (o : string) :
  dispatch slices ch pressed col row cache0 = Quit o ->
  oneOf ch ["q"; _KEY_ESC] = true /\ exists rest, pressed = inr "y" :: rest.
Proof.
  unfold dispatch. intros H.
  destruct (String.eqb ch _KEY_CTRL_L); [discriminate|].
  destruct (oneOf ch ["q"; _KEY_ESC]) eqn:Hq.
  - split; [reflexivity|].
    destruct pressed as [|[e|ch'] rest]; try discriminate.
    destruct (String.eqb_spec ch' "y") as [->|]; [eauto | discriminate].
  - exfalso. dispatch_cases H; try destruct (index slices row); discriminate H.
Qed.

(** The keys a turn leaves are the keys it was given less the one or two
    it has read. *)
Lemma dispatch_Moved_keys (slices : list (list byte)) (ch : string)
    (pressed : list KeyAnswer) (col row : Z) (cache0 : gmap Z string)
    c r cache' pressed' o :
  dispatch slices ch pressed col row cache0 = Moved c r cache' pressed' o ->
  pressed' = pressed \/ exists k, pressed = k :: pressed'.
Proof.
  unfold dispatch. intros H.
  dispatch_cases H; try destruct (index slices row); inversion H; subst; eauto.
Qed.

Lemma frame_Return_None_inv (Truncate : string -> Z -> string -> string)
    (slices : list (list byte)) (size : SizeAnswer) (pressed : list KeyAnswer)
    (st : State) (out : string) :
  frame Truncate slices size pressed st = Return None out ->
  exists ch rest,
    pressed = inr ch :: inr "y" :: rest /\ oneOf ch ["q"; _KEY_ESC] = true.
Proof.
  unfold frame. destruct size as [e|[w h]]; [discriminate|]. cbv zeta.
  destruct (view _ _ _ _ _ _) as [lf [e|] vout cache1|]; try discriminate.
  destruct pressed as [|[e|ch] keys1]; try discriminate.
  destruct (dispatch _ _ _ _ _ _) as [col row cache2 keys2 o|o| |] eqn:Hd;
    try discriminate.
  - destruct (clampColumn _ _ _); discriminate.
  - intros _. apply dispatch_Quit_inv in Hd as [Hq [rest ->]]. eauto.
Qed.

Lemma mainLoop_success (Truncate : string -> Z -> string -> string)
    (slices : list (list byte)) :
  forall (answers : list SizeAnswer) (pressed : list KeyAnswer) (st : State)
         (out out' : string),
    mainLoop Truncate slices answers pressed st out = Finished None out' ->
    exists before ch rest,
      pressed = (before ++ inr ch :: inr "y" :: rest)%list
      /\ oneOf ch ["q"; _KEY_ESC] = true.
Proof.
  intros answers. induction answers as [|size answers IH];
    intros pressed st out out' H; [discriminate|].
  cbn [mainLoop] in H.
  destruct (frame Truncate slices size pressed st) as [st' keys' o|e o| |] eqn:Hf;
    try discriminate.
  - apply IH in H as (before & ch & rest & Heq & Hq).
    destruct size as [e|[w h]]; [discriminate|].
    apply frame_Next_inv in Hf
      as (ch0 & keys1 & cache1 & col & cache2 & o' & -> & Hd & _ & _).
    apply dispatch_Moved_keys in Hd as [->|[k ->]].
    + exists (inr ch0 :: before), ch, rest. now rewrite Heq.
    + exists (inr ch0 :: k :: before), ch, rest. now rewrite Heq.
  - injection H as -> _. apply frame_Return_None_inv in Hf as (ch & rest & -> & Hq).
    exists [], ch, rest. auto.
Qed.

(** X12. [main1] returns without error only after a confirmed quit: a
    terminal was opened, and among the keys it delivered "q" or escape was
    at once followed by "y". Every other way out is an error. *)
Theorem X12_success_only_by_confirmed_quit
    (Truncate : string -> Z -> string -> string)
    (argf : error + list ReadAnswer) (ttyOpen : error + Tty) :
  match main1 Truncate argf ttyOpen with
  | Finished None _ =>
      exists tty1 before ch rest,
        ttyOpen = inr tty1
        /\ keys tty1 = (before ++ inr ch :: inr "y" :: rest)%list
        /\ oneOf ch ["q"; _KEY_ESC] = true
  | _ => True
  end.
Proof.
  unfold main1. destruct argf as [e|reads]; [exact I|].
  destruct (load reads []) as [slices|e|]; [|exact I|exact I].
  destruct (len slices <=? 0); [exact I|].
  destruct ttyOpen as [e|tty1]; [exact I|].
  destruct (mainLoop _ _ _ _ _ _) as [[e|] out| |] eqn:Hrun; try exact I.
  apply mainLoop_success in Hrun as (before & ch & rest & Heq & Hq).
  exists tty1, before, ch, rest. auto.
Qed.

Lemma frame_any_Truncate (T1 T2 : string -> Z -> string -> string)
    (slices : list (list byte)) (size : SizeAnswer) (pressed : list KeyAnswer)
    (st : State) :
  message st = "" ->
  frame T1 slices size pressed st = frame T2 slices size pressed st.
Proof. intros H. unfold frame, statusLine. rewrite H. reflexivity. Qed.

Lemma frame_Next_message (Truncate : string -> Z -> string -> string)
    (slices : list (list byte)) (size : SizeAnswer) (pressed : list KeyAnswer)
    (st st' : State) (pressed' : list KeyAnswer) (out : string) :
  frame Truncate slices size pressed st = Next st' pressed' out ->
  message st' = "".
Proof.
  unfold frame. destruct size as [e|[w h]]; [discriminate|]. cbv zeta.
  destruct (view _ _ _ _ _ _) as [lf [e|] vout cache1|]; try discriminate.
  destruct pressed as [|[e|ch] keys1]; try discriminate.
  destruct (dispatch _ _ _ _ _ _) as [col row cache2 keys2 o|o| |];
    try discriminate.
  destruct (clampColumn _ _ _); [|discriminate].
  intros H. injection H as <- _ _. reflexivity.
Qed.

Lemma mainLoop_any_Truncate (T1 T2 : string -> Z -> string -> string)
    (slices : list (list byte)) :
  forall (answers : list SizeAnswer) (pressed : list KeyAnswer) (st : State)
         (out : string),
    message st = "" ->
    mainLoop T1 slices answers pressed st out = mainLoop T2 slices answers pressed st out.
Proof.
  intros answers. induction answers as [|size answers IH];
    intros pressed st out Hmsg; [reflexivity|].
  cbn [mainLoop]. rewrite (frame_any_Truncate T1 T2) by exact Hmsg.
  destruct (frame T2 slices size pressed st) as [st' keys' o|e o| |] eqn:Hf;
    try reflexivity.
  apply IH. eapply frame_Next_message. exact Hf.
Qed.

(** X13. The message line is never used: [message] is empty at the start
    and after every turn, so [runewidth.Truncate] is never called and the
    whole run of [main1] is the same whatever that function does. *)
Theorem X13_message_never_shown (T1 T2 : string -> Z -> string -> string)
    (argf : error + list ReadAnswer) (ttyOpen : error + Tty) :
  main1 T1 argf ttyOpen = main1 T2 argf ttyOpen
  /\ (forall slices size pressed st st' pressed' out,
        frame T1 slices size pressed st = Next st' pressed' out -> message st' = "").
Proof.
  split.
  - unfold main1. destruct argf as [e|reads]; [reflexivity|].
    destruct (load reads []) as [slices|e|]; try reflexivity.
    destruct (len slices <=? 0); [reflexivity|].
    destruct ttyOpen as [e|tty1]; [reflexivity|].
    now rewrite (mainLoop_any_Truncate T1 T2).
  - intros slices size pressed st st' pressed' out. apply frame_Next_message.
Qed.

Lemma X13_message_never_shown_witness :
  match frame noTruncate [hello] (sizeOk 80 24) [key "j"] initialState with
  | Next st' _ _ => message st' = ""
  | _ => False
  end.
Proof.
  pose proof (proj2 (X13_message_never_shown noTruncate noTruncate
                       (inr []) (inl EOF))
                [hello] (sizeOk 80 24) [key "j"] initialState) as Hmsg.
  destruct (frame noTruncate [hello] (sizeOk 80 24) [key "j"] initialState)
    as [st' pressed' out| | |] eqn:Hf.
  - exact (Hmsg st' pressed' out eq_refl).
  - vm_compute in Hf. discriminate.
  - vm_compute in Hf. discriminate.
  - vm_compute in Hf. discriminate.
Defined.

Lemma load_no_panic (reads : list ReadAnswer) :
  Forall (fun r => len (fst r) <= 16) reads ->
  forall acc, load reads acc <> LoadPanic.
Proof.
  induction reads as [|[chunk e] rest IH]; intros H acc; [discriminate|].
  inversion H as [|? ? Hc Hrest]; subst. simpl in Hc. simpl.
  destruct (Z.ltb_spec 16 (len chunk)); [lia|].
  destruct e as [[|msg]|]; [discriminate | discriminate | now apply IH].
Qed.

Lemma consumed_length (reads : list ReadAnswer) :
  (length (consumed reads) <= length reads)%nat.
Proof.
  induction reads as [|[chunk [e|]] rest IH]; simpl; lia.
Qed.

Lemma loaded_length (reads : list ReadAnswer) (slices : list (list byte)) :
  load reads [] = Loaded slices -> len slices <= len reads.
Proof.
  intros H. apply load_Loaded in H. simpl in H. subst slices.
  pose proof (List.filter_length_le (fun c => 0 <? len c) (map fst (consumed reads))) as Hf.
  rewrite length_map in Hf. pose proof (consumed_length reads).
  unfold len in *. apply Nat2Z.inj_le. exact (Nat.le_trans _ _ _ Hf H).
Qed.

Lemma cursorOk_initial (slices : list (list byte)) :
  datasetOk slices -> cursorOk slices initialState.
Proof.
  intros Hds. unfold cursorOk. simpl.
  destruct (index_in_range slices 0) as [row Hrow]; [destruct Hds; lia|].
  rewrite Hrow. pose proof (datasetOk_row _ _ _ Hds Hrow). lia.
Qed.

Lemma mainLoop_never_panics (Truncate : string -> Z -> string -> string)
    (slices : list (list byte)) :
  datasetOk slices ->
  forall (answers : list SizeAnswer) (pressed : list KeyAnswer) (st : State)
         (out : string),
    Forall (heightSane (len slices)) answers ->
    cursorOk slices st -> windowOk slices st ->
    mainLoop Truncate slices answers pressed st out <> Panicked.
Proof.
  intros Hds answers. induction answers as [|size answers IH];
    intros pressed st out Hsane Hcur Hwin; [discriminate|].
  inversion Hsane as [|? ? Hs Hrest]; subst. cbn [mainLoop].
  destruct size as [e|[w h]]; [discriminate|].
  pose proof (frame_safe Truncate slices (inr (w, h)) pressed st Hds Hcur Hwin Hs)
    as Hsafe.
  destruct (frame Truncate slices (inr (w, h)) pressed st) as [st' keys' o|e o| |];
    [|discriminate|contradiction|discriminate].
  destruct Hsafe as [Hcur' Hwin']. now apply IH.
Qed.

(** X14. No index ever goes out of range: when the reader fills the
    16-byte buffer with at most 16 bytes per read and the terminal reports
    heights that are not negative (and far from the largest [int]), [main1]
    does not panic, whatever bytes are read and whatever keys are pressed. *)
Theorem X14_main1_never_panics (Truncate : string -> Z -> string -> string)
    (reads : list ReadAnswer) (tty1 : Tty) :
  Forall (fun r => len (fst r) <= 16) reads ->
  len reads <= GoInt.max_int ->
  Forall (heightSane (len reads)) (sizes tty1) ->
  main1 Truncate (inr reads) (inr tty1) <> Panicked.
Proof.
  intros Hfit Hmax Hsane. unfold main1.
  destruct (load reads []) as [slices|e|] eqn:Hload;
    [|discriminate|now apply load_no_panic in Hload].
  destruct (len slices <=? 0) eqn:Hne; [discriminate|].
  pose proof (loaded_length _ _ Hload) as Hle.
  assert (Hds : datasetOk slices) by (apply (loaded_datasetOk reads); [assumption..|lia]).
  assert (Hsane' : Forall (heightSane (len slices)) (sizes tty1)).
  { eapply Forall_impl; [exact Hsane|]. intros [e|[w h]]; simpl; [auto|]. lia. }
  pose proof (mainLoop_never_panics Truncate slices Hds (sizes tty1) (keys tty1)
                initialState _ANSI_CURSOR_OFF Hsane' (cursorOk_initial _ Hds)) as Hrun.
  assert (Hwin : windowOk slices initialState)
    by (unfold windowOk; simpl; destruct Hds as [Hn _]; lia).
  specialize (Hrun Hwin).
  destruct (mainLoop _ _ _ _ _ _); [discriminate | contradiction | discriminate].
Qed.

Lemma X14_main1_never_panics_witness :
  (Forall (fun r : ReadAnswer => len (fst r) <= 16) [(hello, None); (hello, Some EOF)]
   /\ len [(hello, None); (hello, Some EOF)] <= GoInt.max_int
   /\ Forall (heightSane (len [(hello, None); (hello, Some EOF)]))
             (sizes {| sizes := [sizeOk 80 1; sizeOk 80 0]; keys := [key "j"; key ">"] |}))
  /\ main1 noTruncate (inr [(hello, None); (hello, Some EOF)])
           (inr {| sizes := [sizeOk 80 1; sizeOk 80 0]; keys := [key "j"; key ">"] |})
     <> Panicked.
Proof.
  assert (H1 : Forall (fun r : ReadAnswer => len (fst r) <= 16)
                 [(hello, None); (hello, Some EOF)])
    by (repeat constructor; vm_compute; discriminate).
  assert (H2 : len [(hello, None); (hello, Some EOF)] <= GoInt.max_int)
    by (vm_compute; discriminate).
  assert (H3 : Forall (heightSane (len [(hello, None); (hello, Some EOF)]))
                 (sizes {| sizes := [sizeOk 80 1; sizeOk 80 0];
                           keys := [key "j"; key ">"] |}))
    by (repeat constructor; vm_compute; discriminate).
  split; [split; [exact H1 | split; [exact H2 | exact H3]]|].
  exact (X14_main1_never_panics noTruncate _ _ H1 H2 H3).
Defined.

(** ** The keys, in plain integers *)

Ltac eval_key_tests :=
  repeat match goal with
    | |- context [oneOf ?c ?l] =>
        let b := eval vm_compute in (oneOf c l) in
        progress change (oneOf c l) with b
    | |- context [String.eqb ?c ?l] =>
        let b := eval vm_compute in (String.eqb c l) in
        progress change (String.eqb c l) with b
    end;
  cbv beta iota.

Ltac split_comparisons :=
  repeat match goal with
    | |- context [if ?a <? ?b then _ else _] => destruct (Z.ltb_spec a b)
    | |- context [if ?a <=? ?b then _ else _] => destruct (Z.leb_spec a b)
    end.

Lemma dispatch_table (slices : list (list byte)) (ch : string)
    (pressed : list KeyAnswer) (col row : Z) (cache0 : gmap Z string)
    (rowBytes : list byte) :
  datasetOk slices ->
  index slices row = Some rowBytes -> 0 <= col < len rowBytes ->
  oneOf ch ["q"; _KEY_ESC] = false ->
  dispatch slices ch pressed col row cache0
  = Moved (colTarget ch (len rowBytes) col) (rowTarget ch (len slices) row)
          (if String.eqb ch _KEY_CTRL_L then ∅ else cache0) pressed "".
Proof.
  intros Hds Hrow Hcol Hq.
  pose proof (index_Some _ _ _ Hrow) as Hr.
  pose proof (datasetOk_row _ _ _ Hds Hrow) as Hlen.
  destruct Hds as [Hn _].
  unfold dispatch, rowTarget, colTarget. rewrite Hrow, Hq. unwrap.
  destruct (String.eqb_spec ch _KEY_CTRL_L) as [->|_];
    [eval_key_tests; reflexivity|].
  destruct (oneOf ch ["j"; _KEY_DOWN; _KEY_CTRL_N]) eqn:H1.
  { apply oneOf_In in H1. simpl in H1. destruct H1 as [<-|[<-|[<-|[]]]];
      eval_key_tests; f_equal; split_comparisons; lia. }
  destruct (oneOf ch ["k"; _KEY_UP; _KEY_CTRL_P]) eqn:H2.
  { apply oneOf_In in H2. simpl in H2. destruct H2 as [<-|[<-|[<-|[]]]];
      eval_key_tests; f_equal; split_comparisons; lia. }
  destruct (oneOf ch ["h"; _KEY_LEFT; _KEY_CTRL_B]) eqn:H3.
  { apply oneOf_In in H3. simpl in H3. destruct H3 as [<-|[<-|[<-|[]]]];
      eval_key_tests; f_equal; split_comparisons; lia. }
  destruct (oneOf ch ["l"; _KEY_RIGHT; _KEY_CTRL_F]) eqn:H4.
  { apply oneOf_In in H4. simpl in H4. destruct H4 as [<-|[<-|[<-|[]]]];
      eval_key_tests; reflexivity. }
  destruct (oneOf ch ["0"; "^"; _KEY_CTRL_A]) eqn:H5.
  { apply oneOf_In in H5. simpl in H5. destruct H5 as [<-|[<-|[<-|[]]]];
      eval_key_tests; reflexivity. }
  destruct (oneOf ch ["$"; _KEY_CTRL_E]) eqn:H6.
  { apply oneOf_In in H6. simpl in H6. destruct H6 as [<-|[<-|[]]];
      eval_key_tests; reflexivity. }
  destruct (String.eqb_spec ch "<") as [->|_]; [reflexivity|].
  destruct (String.eqb_spec ch ">") as [->|_]; reflexivity.
Qed.

(** X15. The keys move the cursor on the grid of bytes by saturating
    steps, and the machine arithmetic never wraps. From a cursor on a byte,
    every key but "q" and escape lets the loop go on with the keys left
    untouched, the row asked for (down and up by one within the dataset,
    "<" and ">" to its ends, else unchanged), and the column asked for
    (left and right by one, "0" and "$" to the ends of the current row,
    else unchanged) cut to the last byte of the new row. Keys that are not
    in the table, ctrl-l included, leave the cursor where it is. *)
Theorem X15_navigation_table (Truncate : string -> Z -> string -> string)
    (slices : list (list byte)) (st : State) (w h : Z) (ch : string)
    (pressed : list KeyAnswer) (rowBytes : list byte) :
  datasetOk slices ->
  index slices (rowIndex st) = Some rowBytes ->
  0 <= colIndex st < len rowBytes ->
  0 <= startRow st ->
  oneOf ch ["q"; _KEY_ESC] = false ->
  exists st' out row',
    frame Truncate slices (inr (w, h)) (inr ch :: pressed) st = Next st' pressed out
    /\ rowIndex st' = rowTarget ch (len slices) (rowIndex st)
    /\ index slices (rowIndex st') = Some row'
    /\ colIndex st'
       = Z.min (colTarget ch (len rowBytes) (colIndex st)) (len row' - 1)
    /\ startRow st' = scroll (rowIndex st') (startRow st) h.
Proof.
  intros Hds Hrow Hcol Hstart Hq.
  assert (Hmax : len slices <= GoInt.max_int) by (destruct Hds; lia).
  destruct (frame_unfold Truncate slices st w h (inr ch :: pressed) Hmax Hstart)
    as (lf & out1 & cache1 & ->).
  pose proof (dispatch_table slices ch pressed (colIndex st) (rowIndex st) cache1
                rowBytes Hds Hrow Hcol Hq) as Hd.
  rewrite Hd.
  destruct (dispatch_moved _ _ _ _ _ _ _ _ _ _ _ _ Hds Hrow Hcol Hd) as [Hr Hc].
  destruct (index_in_range slices _ Hr) as [row' Hrow'].
  rewrite (clampColumn_row _ _ _ _ Hrow').
  pose proof (datasetOk_row _ _ _ Hds Hrow') as Hlen'.
  eexists _, _, row'. split; [reflexivity|]. simpl.
  split; [reflexivity|]. split; [exact Hrow'|]. split; [|reflexivity].
  unwrap. split_comparisons; lia.
Qed.

Lemma X15_navigation_table_witness :
  (datasetOk [hello] /\ index [hello] (rowIndex initialState) = Some hello
   /\ 0 <= colIndex initialState < len hello /\ 0 <= startRow initialState
   /\ oneOf "$" ["q"; _KEY_ESC] = false)
  /\ exists st' out row',
       frame noTruncate [hello] (inr (80, 24)) (inr "$" :: []) initialState
       = Next st' [] out
       /\ rowIndex st' = rowTarget "$" (len [hello]) (rowIndex initialState)
       /\ index [hello] (rowIndex st') = Some row'
       /\ colIndex st'
          = Z.min (colTarget "$" (len hello) (colIndex initialState)) (len row' - 1)
       /\ startRow st' = scroll (rowIndex st') (startRow initialState) 24.
Proof.
  assert (H2 : index [hello] (rowIndex initialState) = Some hello) by reflexivity.
  assert (H3 : 0 <= colIndex initialState < len hello) by (vm_compute; split; [discriminate | reflexivity]).
  assert (H4 : 0 <= startRow initialState) by (simpl; lia).
  assert (H5 : oneOf "$" ["q"; _KEY_ESC] = false) by reflexivity.
  split; [split; [exact datasetOk_hello | split; [exact H2 | split; [exact H3 | split; [exact H4 | exact H5]]]]|].
  exact (X15_navigation_table noTruncate [hello] initialState 80 24 "$" [] hello
           datasetOk_hello H2 H3 H4 H5).
Defined.

(** ** Redrawing *)

Lemma wrap_le_max (z : Z) : GoInt.wrap z <= GoInt.max_int.
Proof.
  unfold GoInt.wrap. rewrite max_int_value, min_int_value.
  change (2 ^ GoInt.bits) with 18446744073709551616.
  pose proof (Z.mod_pos_bound (z - -9223372036854775808) 18446744073709551616
                ltac:(lia)). lia.
Qed.

Lemma dispatch_keeps_cache (slices : list (list byte)) (ch : string)
    (pressed : list KeyAnswer) (col row : Z) (cache0 : gmap Z string)
    c r cache' pressed' o :
  String.eqb ch _KEY_CTRL_L = false ->
  dispatch slices ch pressed col row cache0 = Moved c r cache' pressed' o ->
  cache' = cache0.
Proof.
  intros Hl. unfold dispatch. rewrite Hl. intros H.
  dispatch_cases H; try destruct (index slices row); inversion H; subst; reflexivity.
Qed.

(** A turn that goes on has drawn the window, remembers the terminal size
    it has seen, and keeps the cache that [view] left unless the key was
    ctrl-l. *)
Lemma frame_Next_view (Truncate : string -> Z -> string -> string)
    (slices : list (list byte)) (w h : Z) (ch : string) (pressed : list KeyAnswer)
    (st st' : State) (pressed' : list KeyAnswer) (out : string) :
  frame Truncate slices (inr (w, h)) (inr ch :: pressed) st = Next st' pressed' out ->
  lastWidth st' = w /\ lastHeight st' = h
  /\ exists cache0 lf0 vout cache1,
       view {| Data := slices; StartY := startRow st |} (colIndex st)
            (GoInt.sub (rowIndex st) (startRow st))
            (GoInt.sub w 1) (GoInt.sub h 1) cache0
       = ViewReturn lf0 None vout cache1
       /\ (String.eqb ch _KEY_CTRL_L = false -> cache st' = cache1).
Proof.
  unfold frame. cbv zeta.
  destruct (view _ _ _ _ _ _) as [lf [e|] vout cache1|] eqn:Hview; try discriminate.
  destruct (dispatch _ _ _ _ _ _) as [col row cache2 keys2 o|o| |] eqn:Hd;
    try discriminate.
  destruct (clampColumn _ _ _) as [col'|]; [|discriminate].
  intros H. injection H as <- _ _. simpl.
  split; [|split].
  - destruct (Z.eqb_spec (lastWidth st) w); simpl; [|reflexivity].
    destruct (Z.eqb_spec (lastHeight st) h); simpl; [assumption | reflexivity].
  - destruct (Z.eqb_spec (lastWidth st) w); simpl; [|reflexivity].
    destruct (Z.eqb_spec (lastHeight st) h); simpl; [assumption | reflexivity].
  - eexists _, lf, vout, cache1. split; [exact Hview|].
    intros Hl. eapply dispatch_keeps_cache; eassumption.
Qed.

(** X16. No flicker on an idle turn. After a turn that goes on, the state
    remembers the terminal size just seen, so the next turn at that size
    does not empty the cache. If moreover the key was not ctrl-l and moved
    neither the cursor nor the window (an unknown key, a move against an
    edge, an unconfirmed quit), then the [view] of the next turn, called on
    the state and the cache the turn has left, writes line breaks only: no
    row is drawn again. *)
Theorem X16_idle_turn_redraws_nothing (Truncate : string -> Z -> string -> string)
    (slices : list (list byte)) (st : State) (w h : Z) (ch : string)
    (pressed : list KeyAnswer) :
  match frame Truncate slices (inr (w, h)) (inr ch :: pressed) st with
  | Next st' _ _ =>
      lastWidth st' = w /\ lastHeight st' = h
      /\ if unchanged ch st st' then
           exists lf n,
             view {| Data := slices; StartY := startRow st' |} (colIndex st')
                  (GoInt.sub (rowIndex st') (startRow st'))
                  (GoInt.sub w 1) (GoInt.sub h 1) (cache st')
             = ViewReturn lf None (joinAll (replicate n CRLF)) (cache st')
         else True
  | _ => True
  end.
Proof.
  destruct (frame Truncate slices (inr (w, h)) (inr ch :: pressed) st)
    as [st' keys' o|e o| |] eqn:Hf; try exact I.
  destruct (frame_Next_view _ _ _ _ _ _ _ _ _ _ Hf)
    as (Hw & Hh & cache0 & lf0 & vout & cache1 & Hview & Hcache).
  split; [exact Hw|]. split; [exact Hh|].
  destruct (unchanged ch st st') eqn:Hu; [|exact I].
  unfold unchanged in Hu.
  apply andb_prop in Hu as [Hu Hs]. apply andb_prop in Hu as [Hu Hr].
  apply andb_prop in Hu as [Hl Hc].
  apply Z.eqb_eq in Hs. apply Z.eqb_eq in Hr. apply Z.eqb_eq in Hc.
  apply negb_true_iff in Hl.
  rewrite Hs, Hr, Hc, (Hcache Hl).
  destruct (view_again _ _ _ _ _ _ _ _ _ _ (wrap_le_max (h - 1)) Hview) as [n Hn].
  exists lf0, n. exact Hn.
Qed.

(** The idle case does occur: an unknown key at the start. *)
Lemma idle_turn_example :
  match frame noTruncate [hello] (inr (80, 24)) (inr _KEY_F2 :: @nil KeyAnswer) initialState with
  | Next st' _ _ => unchanged _KEY_F2 initialState st' = true
  | _ => False
  end.
Proof. vm_compute. reflexivity. Qed.

Lemma X16_idle_turn_redraws_nothing_witness :
  match frame noTruncate [hello] (inr (80, 24)) (inr _KEY_F2 :: @nil KeyAnswer) initialState with
  | Next st' _ _ =>
      exists lf n,
        view {| Data := [hello]; StartY := startRow st' |} (colIndex st')
             (GoInt.sub (rowIndex st') (startRow st'))
             (GoInt.sub 80 1) (GoInt.sub 24 1) (cache st')
        = ViewReturn lf None (joinAll (replicate n CRLF)) (cache st')
  | _ => False
  end.
Proof.
  pose proof (X16_idle_turn_redraws_nothing noTruncate [hello] initialState 80 24
                _KEY_F2 []) as Hidle.
  pose proof idle_turn_example as Hsame.
  assert (Hf : exists st' pressed' out,
             frame noTruncate [hello] (inr (80, 24)) (inr _KEY_F2 :: @nil KeyAnswer) initialState
             = Next st' pressed' out) by (eexists _, _, _; reflexivity).
  destruct Hf as (st' & pressed' & out & Hf).
  rewrite Hf in Hidle, Hsame. rewrite Hf.
  destruct Hidle as (_ & _ & Hidle). rewrite Hsame in Hidle. exact Hidle.
Defined.

(** ** Line feeds *)

Lemma countChar_app (c : ascii) (a b : string) :
  countChar c (a +:+ b) = (countChar c a + countChar c b)%nat.
Proof.
  induction a as [|x a IH]; [reflexivity|].
  rewrite append_cons. simpl. rewrite IH. lia.
Qed.

Lemma noLF_zeros n : countChar LF (zeros n) = 0%nat.
Proof. induction n; simpl; auto. Qed.

Lemma noLF_upperHex u : countChar LF (upperHex u) = 0%nat.
Proof. induction u; simpl; auto. Qed.

Lemma noLF_fmt_X wid v : countChar LF (fmt_X wid v) = 0%nat.
Proof.
  unfold fmt_X, padZero. destruct (v <? 0).
  - simpl. now rewrite countChar_app, noLF_zeros, noLF_upperHex.
  - now rewrite countChar_app, noLF_zeros, noLF_upperHex.
Qed.

Lemma noLF_padLoop n : countChar LF (padLoop n) = 0%nat.
Proof.
  induction n as [|n IH]; [reflexivity|].
  simpl padLoop. now rewrite countChar_app, IH.
Qed.

Lemma noLF_hexLoop (cursorPos : Z) (slice : list byte) :
  forall i, countChar LF (hexLoop cursorPos i slice) = 0%nat.
Proof.
  induction slice as [|s rest IH]; intros i; [reflexivity|].
  simpl hexLoop. rewrite !countChar_app, noLF_fmt_X, IH.
  destruct (0 <? i)%nat; destruct (Z.of_nat i =? cursorPos);
    try destruct (Z.land _ _ =? 0); reflexivity.
Qed.

Lemma byte_not_LF (b : byte) :
  0x20 <= byteZ b -> Ascii.eqb (ascii_of_byte b) LF = false.
Proof.
  destruct b; intros H; first [reflexivity | exfalso; apply H; reflexivity].
Qed.

Lemma noLF_bytes (l : list byte) :
  Forall (fun b => 0x20 <= byteZ b) l -> countChar LF (string_of_list_byte l) = 0%nat.
Proof.
  induction l as [|b l IH]; intros H; [reflexivity|].
  inversion H; subst. simpl. rewrite byte_not_LF by assumption. now apply IH.
Qed.

Lemma glyph_bytes_high (slice : list byte) (i : nat) (s : byte) :
  slice !! i = Some s -> glyphLength slice i s <> 0%nat ->
  Forall (fun b => 0x20 <= byteZ b) (take (glyphLength slice i s) (drop i slice)).
Proof.
  intros Hs Hpos.
  destruct (glyphLength_positive slice i s Hpos) as (Hlen & Hin & Hcont).
  apply Forall_lookup_2. intros k b Hk.
  apply lookup_take_Some in Hk as [Hk Hlt]. rewrite lookup_drop in Hk.
  destruct k as [|k].
  - rewrite Nat.add_0_r, Hs in Hk. injection Hk as <-.
    apply seqLength_positive. congruence.
  - specialize (Hcont (S k) ltac:(lia)). unfold byteAt in Hcont.
    rewrite Hk in Hcont. simpl in Hcont. unfold isContinuation in Hcont.
    apply andb_prop in Hcont as [Hlo _]. apply Z.leb_le in Hlo. lia.
Qed.

Lemma noLF_emitGlyph (cursorPos : Z) (slice : list byte) (g : nat * nat) :
  In g (glyphs slice) -> countChar LF (emitGlyph cursorPos slice g) = 0%nat.
Proof.
  intros Hin. destruct g as [i n].
  destruct (glyphsFrom_sound _ _ _ _ _ Hin) as (s & Hs & Hn).
  unfold emitGlyph. destruct (n =? 0)%nat eqn:Hz.
  - destruct (Z.of_nat i =? cursorPos); reflexivity.
  - apply Nat.eqb_neq in Hz. rewrite !countChar_app.
    rewrite noLF_bytes by (rewrite Hn; apply glyph_bytes_high; [exact Hs | congruence]).
    destruct ((Z.of_nat i <=? cursorPos) && (cursorPos <? Z.of_nat (i + n)));
      destruct (n =? 3)%nat; try destruct (n =? 4)%nat; reflexivity.
Qed.

Lemma noLF_draw (address cursorPos : Z) (slice : list byte) :
  countChar LF (draw address cursorPos slice) = 0%nat.
Proof.
  unfold draw, drawAddress, drawHex, drawChars.
  rewrite !countChar_app, noLF_fmt_X, noLF_hexLoop, noLF_padLoop.
  assert (H : forall gs, (forall g, In g gs -> In g (glyphs slice)) ->
            countChar LF (joinAll (map (emitGlyph cursorPos slice) gs)) = 0%nat).
  { induction gs as [|g gs IH]; intros Hsub; [reflexivity|].
    simpl. rewrite countChar_app, noLF_emitGlyph by (apply Hsub; now left).
    apply IH. intros g' Hg'. apply Hsub. now right. }
  rewrite H by auto. reflexivity.
Qed.

Lemma countLF_paint (cache0 : gmap Z string) (home csrpos csrlin : Z)
    (rows : list (list byte)) :
  forall n, 0 <= n ->
    countChar LF (paint cache0 home csrpos csrlin n rows)
    = if n =? 0 then (length rows - 1)%nat else length rows.
Proof.
  induction rows as [|r rest IH]; intros n Hn.
  - simpl. now destruct (n =? 0).
  - simpl paint. rewrite !countChar_app, IH by lia.
    assert (Hline : countChar LF
              (if shouldWrite cache0 n (rowLine home csrpos csrlin n r)
               then rowLine home csrpos csrlin n r else "") = 0%nat)
      by (destruct (shouldWrite _ _ _); [apply noLF_draw | reflexivity]).
    rewrite Hline.
    destruct (Z.eqb_spec (n + 1) 0); [lia|].
    destruct (Z.eqb_spec n 0) as [->|]; simpl length.
    + simpl. lia.
    + destruct (Z.ltb_spec 0 n); [|lia]. simpl. lia.
Qed.

Lemma view_rows (data : list (list byte)) (startY csrpos csrlin w h : Z)
    (cache0 : gmap Z string) :
  0 <= startY -> len data * 16 <= GoInt.max_int -> h <= GoInt.max_int ->
  view {| Data := data; StartY := startY |} csrpos csrlin w h cache0
  = ViewReturn
      (Z.max 0 (len (take (Z.to_nat h) (drop (Z.to_nat startY) data)) - 1)) None
      (paint cache0 startY csrpos csrlin 0
             (take (Z.to_nat h) (drop (Z.to_nat startY) data)))
      (repaint cache0 startY csrpos csrlin 0
               (take (Z.to_nat h) (drop (Z.to_nat startY) data))).
Proof.
  intros Hstart Hdata Hh. unfold view. simpl HomeAddress.
  pose proof (viewLoop_rows data startY csrpos csrlin Hstart Hdata
                (Z.to_nat h) 0 0 cache0 "" ltac:(lia)
                ltac:(pose proof max_int_value; lia) ltac:(lia)) as Hrun.
  cbv zeta in Hrun. rewrite Z.add_0_r, append_nil_l in Hrun. exact Hrun.
Qed.

Lemma noLF_statusLine (Truncate : string -> Z -> string -> string)
    (slices : list (list byte)) (st : State) (w : Z) :
  message st = "" -> countChar LF (statusLine Truncate slices st w) = 0%nat.
Proof.
  intros Hmsg. unfold statusLine. rewrite Hmsg. simpl negb. cbv iota.
  destruct (index slices (rowIndex st)) as [row|]; [|reflexivity].
  destruct (index row (colIndex st)) as [b|]; [|reflexivity].
  rewrite !countChar_app, !noLF_fmt_X. reflexivity.
Qed.

Lemma dispatch_Moved_out (slices : list (list byte)) (ch : string)
    (pressed : list KeyAnswer) (col row : Z) (cache0 : gmap Z string)
    c r cache' pressed' o :
  dispatch slices ch pressed col row cache0 = Moved c r cache' pressed' o ->
  countChar LF o = 0%nat.
Proof.
  unfold dispatch. intros H.
  dispatch_cases H; try destruct (index slices row); inversion H; subst; reflexivity.
Qed.

(** X17. The redraw stays in place. At the end of a turn that goes on, the
    terminal cursor is moved up by exactly the number of line feeds the
    turn has written (one per row drawn), which is at least 1; so the next
    turn draws over the same lines. *)
Theorem X17_cursor_goes_back_up (Truncate : string -> Z -> string -> string)
    (slices : list (list byte)) (st : State) (w h : Z) (pressed : list KeyAnswer) :
  0 <= startRow st -> len slices * 16 <= GoInt.max_int -> message st = "" ->
  match frame Truncate slices (inr (w, h)) pressed st with
  | Next _ _ out =>
      exists body n,
        out = body +:+ String CR (String ESC "[") +:+ fmt_d n +:+ "A"
        /\ Z.of_nat (countChar LF body) = n /\ 1 <= n
  | _ => True
  end.
Proof.
  intros Hstart Hdata Hmsg. unfold frame. cbv zeta.
  rewrite view_rows by (try assumption; apply wrap_le_max).
  set (shown := take (Z.to_nat (GoInt.sub h 1)) (drop (Z.to_nat (startRow st)) slices)).
  destruct pressed as [|[e|ch] keys1]; try exact I.
  destruct (dispatch _ _ _ _ _ _) as [col row cache2 keys2 o|o| |] eqn:Hd;
    try exact I.
  destruct (clampColumn _ _ _) as [col'|]; [|exact I].
  assert (Hshown : len shown <= len slices).
  { unfold shown, len. rewrite length_take, length_drop. lia. }
  assert (Hlen : 0 <= len shown) by apply len_nonneg.
  assert (Hs : 0 <= len slices) by apply len_nonneg.
  unwrap. unfold cursorUp.
  destruct (Z.ltb_spec 0 (Z.max 0 (len shown - 1) + 1)) as [_|]; [|lia].
  eexists _, _. split; [|split].
  - rewrite <- !append_assoc. reflexivity.
  - rewrite !countChar_app.
    rewrite (countLF_paint _ _ _ _ shown 0) by lia.
    rewrite (noLF_statusLine _ _ _ _ Hmsg), (dispatch_Moved_out _ _ _ _ _ _ _ _ _ _ _ Hd).
    change (0 =? 0) with true. cbv iota.
    assert (Hoff : countChar LF
              (if negb (lastWidth st =? w) || negb (lastHeight st =? h)
               then _ANSI_CURSOR_OFF else "") = 0%nat)
      by (destruct (_ || _); reflexivity).
    rewrite Hoff. change (countChar LF CRLF) with 1%nat.
    change (countChar LF ERASE_SCRN_AFTER) with 0%nat.
    unfold len. lia.
  - lia.
Qed.

Lemma X17_cursor_goes_back_up_witness :
  (0 <= startRow initialState /\ len [hello; hello] * 16 <= GoInt.max_int
   /\ message initialState = "")
  /\ match frame noTruncate [hello; hello] (inr (80, 24)) [key "j"] initialState with
     | Next _ _ out =>
         exists body n,
           out = body +:+ String CR (String ESC "[") +:+ fmt_d n +:+ "A"
           /\ Z.of_nat (countChar LF body) = n /\ 1 <= n
     | _ => True
     end.
Proof.
  assert (H1 : 0 <= startRow initialState) by (simpl; lia).
  assert (H2 : len [hello; hello] * 16 <= GoInt.max_int) by (vm_compute; discriminate).
  assert (H3 : message initialState = "") by reflexivity.
  split; [split; [exact H1 | split; [exact H2 | exact H3]]|].
  exact (X17_cursor_goes_back_up noTruncate [hello; hello] initialState 80 24
           [key "j"] H1 H2 H3).
Defined.

(** ** The record source *)

(** X18. [MemoryBin.Read] hands out the record at the home address and
    moves the home address on by one; at or past the end of the data it
    answers [io.EOF] and stays where it is, so every later read answers
    [io.EOF] too; it fails with no other error, and it panics only on a
    negative start row. *)
Theorem X18_MemoryBin_Read (this : MemoryBin) :
  len (Data this) <= GoInt.max_int ->
  match Read this with
  | (ReadOk bin, this') =>
      index (Data this) (HomeAddress this) = Some bin
      /\ 0 <= HomeAddress this < len (Data this)
      /\ Data this' = Data this
      /\ HomeAddress this' = HomeAddress this + 1
  | (ReadFail e, this') =>
      e = EOF /\ len (Data this) <= HomeAddress this
      /\ this' = this /\ Read this' = (ReadFail EOF, this')
  | (ReadPanic, _) => HomeAddress this < 0
  end.
Proof.
  intros Hmax. simpl Read. simpl HomeAddress. unfold MemoryBin_Read.
  destruct (Z.leb_spec (len (Data this)) (StartY this)) as [Hend|Hin].
  - repeat split; try assumption.
    unfold MemoryBin_Read. destruct (Z.leb_spec (len (Data this)) (StartY this));
      [reflexivity | lia].
  - destruct (index (Data this) (StartY this)) as [bin|] eqn:Hbin.
    + pose proof (index_Some _ _ _ Hbin). simpl. unwrap. auto.
    + unfold index in Hbin. destruct (Z.ltb_spec (StartY this) 0); [assumption|].
      apply lookup_ge_None_1 in Hbin. unfold len in Hin. lia.
Qed.

Lemma X18_MemoryBin_Read_witness :
  len (Data {| Data := [hello; hello]; StartY := 1 |}) <= GoInt.max_int
  /\ match Read {| Data := [hello; hello]; StartY := 1 |} with
     | (ReadOk bin, this') => bin = hello /\ HomeAddress this' = 2
     | _ => False
     end.
Proof.
  assert (H : len (Data {| Data := [hello; hello]; StartY := 1 |}) <= GoInt.max_int)
    by (vm_compute; discriminate).
  split; [exact H|].
  pose proof (X18_MemoryBin_Read {| Data := [hello; hello]; StartY := 1 |} H) as Hread.
  destruct (Read {| Data := [hello; hello]; StartY := 1 |}) as [[bin|e|] this'].
  - destruct Hread as (Hbin & _ & _ & Hhome). split.
    + vm_compute in Hbin. injection Hbin as <-. reflexivity.
    + exact Hhome.
  - destruct Hread as (_ & Hend & _). vm_compute in Hend. apply Hend. reflexivity.
  - vm_compute in Hread. discriminate.
Defined.

(** ** The status line *)

(** X19. While the cursor is on a byte of the dataset and no message is
    pending, the status line is never left out: it shows, in yellow, the
    address [rowIndex * 16 + colIndex] of that byte (no wrap-around) in at
    least eight hexadecimal digits and the byte itself in two, whatever the
    width of the terminal. *)
Theorem X19_status_line (Truncate : string -> Z -> string -> string)
    (slices : list (list byte)) (st : State) (w : Z)
    (rowBytes : list byte) (b : byte) :
  len slices * 16 <= GoInt.max_int ->
  message st = "" ->
  index slices (rowIndex st) = Some rowBytes ->
  index rowBytes (colIndex st) = Some b ->
  len rowBytes <= 16 ->
  statusLine Truncate slices st w
  = String ESC "[0;33;1m(" +:+ fmt_X 8 (rowIndex st * 16 + colIndex st)
    +:+ "):" +:+ hex2 b +:+ String ESC "[0m"
  /\ 0 <= rowIndex st * 16 + colIndex st < len slices * 16
  /\ visibleText (statusLine Truncate slices st w)
     = "(" +:+ fmt_X 8 (rowIndex st * 16 + colIndex st) +:+ "):" +:+ hex2 b.
Proof.
  intros Hmax Hmsg Hrow Hcol Hlen.
  pose proof (index_Some _ _ _ Hrow) as Hr.
  pose proof (index_Some _ _ _ Hcol) as Hc.
  pose proof max_int_value as Hv.
  assert (Hst : statusLine Truncate slices st w
                = String ESC "[0;33;1m(" +:+ fmt_X 8 (rowIndex st * 16 + colIndex st)
                  +:+ "):" +:+ hex2 b +:+ String ESC "[0m").
  { unfold statusLine. rewrite Hmsg, Hrow, Hcol. simpl negb. cbv iota.
    unfold GoInt.add, GoInt.mul. unwrap. reflexivity. }
  split; [exact Hst|]. split; [lia|].
  rewrite Hst. unfold visibleText.
  transitivity (String "(" (visibleFrom Text
                  (fmt_X 8 (rowIndex st * 16 + colIndex st)
                   +:+ "):" +:+ hex2 b +:+ String ESC "[0m"))); [reflexivity|].
  rewrite (visible_plain (fmt_X 8 _)) by apply plain_fmt_X.
  rewrite (visible_plain "):") by (repeat constructor).
  rewrite (visible_plain (hex2 b)) by apply plain_fmt_X.
  change (visibleFrom Text (String ESC "[0m")) with "".
  rewrite append_nil_r. reflexivity.
Qed.

Lemma X19_status_line_witness :
  (len [hello] * 16 <= GoInt.max_int /\ message initialState = ""
   /\ index [hello] (rowIndex initialState) = Some hello
   /\ index hello (colIndex initialState) = Some "H"%byte
   /\ len hello <= 16)
  /\ statusLine noTruncate [hello] initialState 80
     = String ESC "[0;33;1m(00000000):48" +:+ String ESC "[0m".
Proof.
  assert (H1 : len [hello] * 16 <= GoInt.max_int) by (vm_compute; discriminate).
  assert (H2 : message initialState = "") by reflexivity.
  assert (H3 : index [hello] (rowIndex initialState) = Some hello) by reflexivity.
  assert (H4 : index hello (colIndex initialState) = Some "H"%byte) by reflexivity.
  assert (H5 : len hello <= 16) by (vm_compute; discriminate).
  split; [repeat split; assumption|].
  destruct (X19_status_line noTruncate [hello] initialState 80 hello "H"%byte
              H1 H2 H3 H4 H5) as (Hst & _ & _).
  rewrite Hst. reflexivity.
Defined.

(** ** The attributes of the hexadecimal panel *)

Lemma group_parity (i : nat) :
  (Z.land (Z.shiftr (Z.of_nat i) 2) 1 =? 0) = Nat.even (i / 4).
Proof.
  rewrite Z.shiftr_div_pow2 by lia.
  change 1 with (Z.ones 1) at 1. rewrite Z.land_ones by lia.
  change (2 ^ 2) with (Z.of_nat 4). change (2 ^ 1) with 2.
  rewrite <- Nat2Z.inj_div.
  destruct (Nat.even (i / 4)) eqn:E.
  - apply Nat.even_spec in E as [k ->]. apply Z.eqb_eq.
    rewrite Nat2Z.inj_mul, Z.mul_comm. apply Z_mod_mult.
  - rewrite <- Nat.negb_odd in E. apply negb_false_iff, Nat.odd_spec in E as [k ->].
    apply Z.eqb_neq. rewrite Nat2Z.inj_add, Nat2Z.inj_mul.
    rewrite Z.add_comm, Z.mul_comm, Z_mod_plus_full. discriminate.
Qed.

Lemma concat_cons (sep a : string) (l : list string) :
  String.concat sep (a :: l) = a +:+ joinAll (map (fun b => sep +:+ b) l).
Proof.
  revert a. induction l as [|b l IH]; intros a.
  - simpl. now rewrite append_nil_r.
  - change (String.concat sep (a :: b :: l))
      with (a +:+ sep +:+ String.concat sep (b :: l)).
    rewrite IH. simpl joinAll. now rewrite <- !append_assoc.
Qed.

Lemma hexLoop_cons (cursorPos : Z) (i : nat) (s : byte) (rest : list byte) :
  hexLoop cursorPos i (s :: rest)
  = (if (0 <? i)%nat then String ESC "[0m " else "")
    +:+ (if Z.of_nat i =? cursorPos then CURSOR_COLOR
         else if Z.land (Z.shiftr (Z.of_nat i) 2) 1 =? 0 then CELL1_COLOR
         else CELL2_COLOR)
    +:+ fmt_X 2 (byteZ s)
    +:+ hexLoop cursorPos (S i) rest.
Proof. reflexivity. Qed.

Lemma hexLoop_later (cursorPos : Z) (slice : list byte) :
  forall i, (0 < i)%nat ->
    hexLoop cursorPos i slice
    = joinAll (map (fun b => String ESC "[0m " +:+ b)
                 (map (fun c => fst c +:+ snd c)
                    (imap (fun k s => (cellAttribute cursorPos (i + k), hex2 s)) slice))).
Proof.
  induction slice as [|s rest IH]; intros i Hi; [reflexivity|].
  rewrite hexLoop_cons, imap_cons. simpl map. simpl joinAll.
  destruct (Nat.ltb_spec 0 i); [|lia].
  rewrite IH by lia. rewrite Nat.add_0_r.
  unfold cellAttribute at 1. rewrite group_parity.
  rewrite (imap_ext (fun k s0 => (cellAttribute cursorPos (S i + k), hex2 s0))
                    ((fun k s0 => (cellAttribute cursorPos (i + k), hex2 s0)) ∘ S))
    by (intros k x _; simpl; now rewrite Nat.add_succ_r).
  unfold hex2. simpl fst. simpl snd.
  rewrite <- !append_assoc. reflexivity.
Qed.

(** X20. The hexadecimal panel is the cells of the record separated by a
    reset and a blank, each cell an attribute and two digits: the cursor
    attribute on the cursor column, and elsewhere one of two attributes that
    alternate every four cells (cells 0-3 and 8-11 the first, 4-7 and 12-15
    the second); then a reset, a blank and the padding. *)
Theorem X20_hex_cells_in_groups_of_four (cursorPos : Z) (slice : list byte) :
  drawHex cursorPos slice
  = cells (String ESC "[0m ")
          (imap (fun i s => (cellAttribute cursorPos i, hex2 s)) slice)
    +:+ String ESC "[0m " +:+ padLoop (16 - length slice)
  /\ forall i, (i < 16)%nat ->
       Z.of_nat i <> cursorPos ->
       cellAttribute cursorPos i
       = if (i <? 4)%nat || ((8 <=? i)%nat && (i <? 12)%nat)
         then CELL1_COLOR else CELL2_COLOR.
Proof.
  split.
  - unfold drawHex, cells. f_equal.
    destruct slice as [|s rest]; [reflexivity|].
    rewrite imap_cons. simpl map. rewrite concat_cons.
    rewrite hexLoop_cons, hexLoop_later by lia.
    unfold cellAttribute at 1. rewrite group_parity.
    unfold hex2. simpl fst. simpl snd.
    rewrite <- !append_assoc. reflexivity.
  - intros i Hi Hc. unfold cellAttribute.
    destruct (Z.eqb_spec (Z.of_nat i) cursorPos); [contradiction|].
    do 16 (destruct i as [|i]; [reflexivity|]). lia.
Qed.

Lemma X20_hex_cells_in_groups_of_four_witness :
  ((5 < 16)%nat /\ Z.of_nat 5 <> -1)
  /\ cellAttribute (-1) 5 = CELL2_COLOR.
Proof.
  assert (H1 : (5 < 16)%nat) by lia.
  assert (H2 : Z.of_nat 5 <> -1) by lia.
  split; [split; assumption|].
  exact (proj2 (X20_hex_cells_in_groups_of_four (-1) hello) 5%nat H1 H2).
Defined.
